(** * glide: least-latency routing and the Cohere chat client

    A shallow embedding of
      - [pkg/routers/routing/least_latency.go] (module [Routing]), and
      - the Cohere chat client, package [cohere] (module [Cohere]),
    together with the properties of the gateway specification that concern
    them.

    Conventions of the embedding.
      - [time.Time] is a reading of the monotonic clock in nanoseconds, an
        integer; [time.Duration] is an integer number of nanoseconds.
      - [time.Now()] is an effect: every call consumes the next reading of a
        clock [clock : nat -> Time]; the number of readings consumed so far
        is the state of the monad [Clk].
      - A [*ModelSchedule] is a position in [r.schedules]; code that holds
        such a pointer carries the position together with the schedule it
        points to.
      - Locks and log statements have no counterpart: a call runs alone. *)

From Stdlib Require Import ZArith QArith Lia Lqa String.
From stdpp Require Import base option list strings gmap.

Local Open Scope Z_scope.

(** ** Go's [error] values that occur in the two packages *)

Inductive error :=
  | ErrNoHealthyModels                          (* routing.ErrNoHealthyModels *)
  | ErrProviderUnavailable                      (* clients.ErrProviderUnavailable *)
  | ErrEmptyResponse                            (* cohere.ErrEmptyResponse *)
  | Errorf (msg : string) (wrapped : error)     (* fmt.Errorf("msg: %w", err) *)
  | ExternalError (description : string).       (* an error value of a library *)

(** What a call produces: a value, an error, or a run-time panic. *)
Inductive result (A : Type) :=
  | Ok (a : A)
  | Err (e : error)
  | Panic.
Arguments Ok {A} a.
Arguments Err {A} e.
Arguments Panic {A}.

(** What a call into a library (encoding/json, net/http, io) produces: a
    value, or an error of that library, kept by its message. *)
Inductive outcome (A : Type) :=
  | Done (a : A)
  | Failed (description : string).
Arguments Done {A} a.
Arguments Failed {A} description.

Definition returned {A} (o : outcome A) : result A :=
  match o with
  | Done a => Ok a
  | Failed description => Err (ExternalError description)
  end.

(** ** Time *)

Definition Time := Z.
Definition Duration := Z.

Definition After (t u : Time) : bool := u <? t.      (* t.After(u) *)
Definition Before (t u : Time) : bool := t <? u.     (* t.Before(u) *)
Definition Add (t : Time) (d : Duration) : Time := t + d.

(** The clock monad: the state is the number of readings taken so far. *)
Definition Clk (A : Type) : Type := nat -> A * nat.

Definition ret {A} (a : A) : Clk A := fun k => (a, k).
Definition bind {A B} (c : Clk A) (f : A -> Clk B) : Clk B :=
  fun k => let (a, k') := c k in f a k'.

Notation "x <- c ;; f" := (bind c (fun x => f))
  (at level 100, c at next level, right associativity).

Fixpoint mapM {A B} (f : A -> Clk B) (l : list A) : Clk (list B) :=
  match l with
  | [] => ret []
  | a :: l' => b <- f a ;; bs <- mapM f l' ;; ret (b :: bs)
  end.

(** ** The latency tracker *)

Module Latency.

(** Modelled from the spec: package [glide/pkg/routers/latency] (the
    [MovingAverage] behind [LatencyGetter]) is not among the sources.
    The spec's LatencyTracker is
    [{avg, sample-count, warmup-threshold, decay}] with
    [warmed-up <-> sample-count >= warmup-threshold], and an observation
    [x] makes [avg] become [decay * avg + (1 - decay) * x], or [x] on the
    first sample; reading before the first sample gives 0. *)
Record MovingAverage := {
  avg : Q;
  sample_count : nat;
  warmup_threshold : nat;
  decay : Q
}.

Definition fresh (threshold : nat) (d : Q) : MovingAverage :=
  {| avg := 0%Q; sample_count := 0; warmup_threshold := threshold; decay := d |}.

Definition WarmedUp (e : MovingAverage) : bool :=
  (warmup_threshold e <=? sample_count e)%nat.

Definition Value (e : MovingAverage) : Q := avg e.

Definition observe (x : Q) (e : MovingAverage) : MovingAverage :=
  {| avg := if (sample_count e =? 0)%nat then x
            else (decay e * avg e + (1 - decay e) * x)%Q;
     sample_count := S (sample_count e);
     warmup_threshold := warmup_threshold e;
     decay := decay e |}.

(** [a > b] on latency values. *)
Definition gt (a b : Q) : bool := negb (Qle_bool a b).

End Latency.

(** ** Models *)

Module Providers.

(** Modelled from the spec: the interface [providers.Model] is not among
    the sources; the router calls [Healthy()] and
    [LatencyUpdateInterval()] on it, and the spec's Model carries an id,
    a health flag, the update interval and the latency tracker. *)
Record Model := {
  ID : string;
  Healthy : bool;
  LatencyUpdateInterval : Duration;
  ChatLatency : Latency.MovingAverage
}.

End Providers.

Module Routing.
Import Latency Providers.

Definition LatencyGetter := Model -> MovingAverage.

Record ModelSchedule := {
  model : Model;
  expireAt : Time
}.

Record LeastLatencyRouting := {
  latencyGetter : LatencyGetter;
  warmupIdx : Z;                       (* atomic.Uint32 *)
  schedules : list ModelSchedule       (* []*ModelSchedule *)
}.

(** A [*ModelSchedule]: its position in [r.schedules] and what it points to. *)
Abbreviation ptr := (nat * ModelSchedule)%type.

Section WithClock.

Variable clock : nat -> Time.

(** [time.Now()] *)
Definition time_Now : Clk Time := fun k => (clock k, S k).

Definition ExpireAt (s : ModelSchedule) : Time := expireAt s.

Definition Expired (s : ModelSchedule) : Clk bool :=
  now <- time_Now ;; ret (After now (expireAt s)).

(** [Update] expands the expiration deadline. *)
Definition Update (s : ModelSchedule) : Clk ModelSchedule :=
  now <- time_Now ;;
  ret {| model := model s;
         expireAt := Add now (LatencyUpdateInterval (model s)) |}.

Definition NewSchedule (m : Model) : Clk ModelSchedule :=
  Update {| model := m; expireAt := 0 |}.

Definition NewLeastLatencyRouting (getter : LatencyGetter) (models : list Model)
  : Clk LeastLatencyRouting :=
  ss <- mapM NewSchedule models ;;
  ret {| latencyGetter := getter; warmupIdx := 0; schedules := ss |}.

Definition Iterator (r : LeastLatencyRouting) : LeastLatencyRouting := r.

Definition uint32 (z : Z) : Z := z mod 2 ^ 32.

Definition is_cold (getter : LatencyGetter) (s : ModelSchedule) : bool :=
  Healthy (model s) && negb (WarmedUp (getter (model s))).

(** The loop of [getColdModelSchedules], from position [p] on. *)
Fixpoint coldFrom (getter : LatencyGetter) (p : nat) (ss : list ModelSchedule)
    (coldModels : list ptr) : list ptr :=
  match ss with
  | [] => coldModels
  | schedule :: rest =>
      if is_cold getter schedule
      then coldFrom getter (S p) rest (coldModels ++ [(p, schedule)])
      else coldFrom getter (S p) rest coldModels
  end.

Definition getColdModelSchedules (r : LeastLatencyRouting) : list ptr :=
  coldFrom (latencyGetter r) 0%nat (schedules r) [].

(** One turn of the latency-based loop of [Next]. *)
Definition pick (getter : LatencyGetter) (cand : ptr) (nextSchedule : option ptr)
  : Clk (option ptr) :=
  let schedule := cand.2 in
  if negb (Healthy (model schedule)) then ret nextSchedule
  else
    match nextSchedule with
    | None => ret (Some cand)
    | Some nxt =>
        e <- Expired schedule ;;
        if e && Before (ExpireAt schedule) (ExpireAt nxt.2) then ret (Some cand)
        else
          e1 <- Expired schedule ;;
          if negb e1 then
            e2 <- Expired nxt.2 ;;
            if negb e2 &&
               gt (Value (getter (model nxt.2))) (Value (getter (model schedule)))
            then ret (Some cand)
            else ret nextSchedule
          else ret nextSchedule
    end.

Fixpoint scan (getter : LatencyGetter) (p : nat) (ss : list ModelSchedule)
    (nextSchedule : option ptr) : Clk (option ptr) :=
  match ss with
  | [] => ret nextSchedule
  | schedule :: rest =>
      nextSchedule' <- pick getter (p, schedule) nextSchedule ;;
      scan getter (S p) rest nextSchedule'
  end.

(** [schedule.Update()] through the pointer, then [return schedule.model, nil]. *)
Definition touch_and_return (r : LeastLatencyRouting) (target : ptr)
  : Clk (result Model * LeastLatencyRouting) :=
  schedule' <- Update target.2 ;;
  ret (Ok (model target.2),
       {| latencyGetter := latencyGetter r;
          warmupIdx := warmupIdx r;
          schedules := <[target.1 := schedule']> (schedules r) |}).

Definition Next (r : LeastLatencyRouting) : Clk (result Model * LeastLatencyRouting) :=
  let coldSchedules := getColdModelSchedules r in
  if (0 <? length coldSchedules)%nat then
    (* idx := r.warmupIdx.Add(1) - 1 *)
    let added := uint32 (warmupIdx r + 1) in
    let idx := uint32 (added - 1) in
    let r1 := {| latencyGetter := latencyGetter r;
                 warmupIdx := added;
                 schedules := schedules r |} in
    let n := uint32 (Z.of_nat (length coldSchedules)) in
    if n =? 0 then ret (Panic, r1)                (* integer divide by zero *)
    else
      match coldSchedules !! Z.to_nat (idx mod n) with
      | Some schedule => touch_and_return r1 schedule
      | None => ret (Panic, r1)                   (* index out of range *)
      end
  else
    nextSchedule <- scan (latencyGetter r) 0%nat (schedules r) None ;;
    match nextSchedule with
    | Some schedule => touch_and_return r schedule
    | None => ret (Err ErrNoHealthyModels, r)
    end.

(** [n] successive calls of [it.Next()] on the iterator of [r], with
    nothing happening to the models in between. *)
Fixpoint calls (n : nat) (it : LeastLatencyRouting)
  : Clk (list (result Model) * LeastLatencyRouting) :=
  match n with
  | O => ret ([], it)
  | S n' =>
      first <- Next it ;;
      others <- calls n' first.2 ;;
      ret (first.1 :: others.1, others.2)
  end.

End WithClock.

(** *** The vocabulary of the properties *)

(** The router after a call that returned the schedule at [p]. *)
Definition touched (r : LeastLatencyRouting) (cursor : Z) (p : nat)
    (s : ModelSchedule) (now : Time) : LeastLatencyRouting :=
  {| latencyGetter := latencyGetter r;
     warmupIdx := cursor;
     schedules :=
       <[p := {| model := model s;
                 expireAt := now + LatencyUpdateInterval (model s) |}]> (schedules r) |}.

(** What the loop holds in [nextSchedule]: nothing while no healthy model
    has been met, and afterwards a healthy schedule of the slice. *)
Definition holds_healthy (pre : list ModelSchedule) (nxt : option ptr) : Prop :=
  match nxt with
  | None => ∀ s, s ∈ pre → Healthy (model s) = false
  | Some (q, s) => pre !! q = Some s ∧ Healthy (model s) = true
  end.

(** The healthy schedule of [l] with the earliest [expireAt], the first
    of them in configured order when several share it. *)
Definition earliest_expiry (l : list ModelSchedule) (q : nat) (s : ModelSchedule) : Prop :=
  l !! q = Some s ∧ Healthy (model s) = true ∧
  ∀ q' s', l !! q' = Some s' → Healthy (model s') = true →
    expireAt s ≤ expireAt s' ∧ ((q' < q)%nat → expireAt s < expireAt s').

(** The healthy schedule of [l] with the smallest latency value, the
    first of them in configured order when several share it. *)
Definition least_latency (getter : LatencyGetter) (l : list ModelSchedule)
    (q : nat) (s : ModelSchedule) : Prop :=
  l !! q = Some s ∧ Healthy (model s) = true ∧
  ∀ q' s', l !! q' = Some s' → Healthy (model s') = true →
    (Value (getter (model s)) <= Value (getter (model s')))%Q ∧
    ((q' < q)%nat → (Value (getter (model s)) < Value (getter (model s')))%Q).

(** The two invariants of the loop, for a call that starts at reading
    [k0]: with every reading at [t0] or later, an expired healthy
    schedule met so far makes the loop hold the earliest one; with every
    reading at [t1] or earlier and nothing expired, the loop holds the
    schedule with the least latency. *)
Definition expired_first (k0 : nat) (t0 : Time)
    (pre : list ModelSchedule) (nxt : option ptr) (k : nat) : Prop :=
  holds_healthy pre nxt ∧ (k0 ≤ k)%nat ∧
  ((∃ s', s' ∈ pre ∧ Healthy (model s') = true ∧ expireAt s' < t0) →
   ∃ q s, nxt = Some (q, s) ∧ earliest_expiry pre q s).

Definition fastest_first (getter : LatencyGetter) (k0 : nat) (t1 : Time)
    (pre : list ModelSchedule) (nxt : option ptr) (k : nat) : Prop :=
  holds_healthy pre nxt ∧ (k0 ≤ k)%nat ∧
  ((∀ s', s' ∈ pre → Healthy (model s') = true → t1 ≤ expireAt s') →
   ∀ q s, nxt = Some (q, s) → least_latency getter pre q s).

(** The cold schedules as the caller sees them: position and model. *)
Definition cold_view (r : LeastLatencyRouting) : list (nat * Model) :=
  (λ t, (t.1, model t.2)) <$> getColdModelSchedules r.

End Routing.

(** ** The normalized chat schema *)

Module Schemas.

(** Modelled from the spec: package [glide/pkg/api/schemas] is not among
    the sources; the structs below have the fields that section 6 of the
    spec lists and that the Cohere client reads and writes. *)
Module ChatMessage.
Record t := { Role : string; Content : string; Name : string }.
End ChatMessage.

Module ChatRequest.
Record t := {
  Message : ChatMessage.t;
  MessageHistory : list ChatMessage.t
}.
End ChatRequest.

Module TokenUsage.
Record t := { PromptTokens : Z; ResponseTokens : Z; TotalTokens : Z }.
End TokenUsage.

Module ModelResponse.
Record t := {
  SystemID : gmap string string;
  Message : ChatMessage.t;
  TokenUsage : TokenUsage.t
}.
End ModelResponse.

Module ChatResponse.
Record t := {
  ID : string;
  Created : Z;
  Provider : string;
  ModelName : string;
  Cached : bool;
  ModelResponse : ModelResponse.t
}.
End ChatResponse.

End Schemas.

(** ** net/http, as far as the client uses it *)

Module Http.

Definition bytes := list Byte.byte.

Module Request.
Record t := {
  Method : string;
  URL : string;
  Header : gmap string string;
  Body : bytes
}.
End Request.

(** [req.Header.Set(key, value)] *)
Definition Header_Set (key value : string) (req : Request.t) : Request.t :=
  {| Request.Method := Request.Method req;
     Request.URL := Request.URL req;
     Request.Header := <[key := value]> (Request.Header req);
     Request.Body := Request.Body req |}.

Module Response.
(** [Body] is what [io.ReadAll(resp.Body)] returns. *)
Record t := {
  StatusCode : Z;
  Header : gmap string string;
  Body : outcome bytes
}.
End Response.

Definition StatusOK : Z := 200.
Definition MethodPost : string := "POST".

End Http.

(** ** The Cohere client *)

Module Cohere.
Import Http.

(** The structs of the package whose declarations are not among the
    sources have the fields the client's code names. A [float64] that is
    only copied is a rational number here. *)
Definition float64 : Type := Q.

Module Params.
Record t := {
  Temperature : float64;
  Preamble : string;
  PromptTruncation : string;
  Connectors : list string;
  SearchQueriesOnly : bool
}.
End Params.

Module Config.
Record t := { Model : string; APIKey : string; DefaultParams : Params.t }.
End Config.

Module ChatMessage.
Record t := { Role : string; Content : string }.
End ChatMessage.

Module ChatRequest.
Record t := {
  Model : string;
  Message : string;
  Temperature : float64;
  Preamble : string;
  ChatHistory : list ChatMessage.t;
  PromptTruncation : string;
  Connectors : list string;
  SearchQueriesOnly : bool;
  Stream : bool
}.
End ChatRequest.

Module TokenCount.
Record t := { PromptTokens : Z; ResponseTokens : Z; TotalTokens : Z }.
End TokenCount.

Module ChatCompletion.
Record t := {
  ResponseID : string;
  GenerationID : string;
  Text : string;
  TokenCount : TokenCount.t
}.
End ChatCompletion.

Module Client.
Record t := {
  chatURL : string;
  chatRequestTemplate : ChatRequest.t;
  errMapper : Response.t -> error;                 (* c.errMapper.Map *)
  config : Config.t;
  httpClient : Request.t -> outcome Response.t     (* c.httpClient.Do *)
}.
End Client.

(** [NewChatRequestFromConfig] fills the struct from the config; the
    fields it does not name keep Go's zero value. *)
Definition NewChatRequestFromConfig (cfg : Config.t) : ChatRequest.t :=
  {| ChatRequest.Model := Config.Model cfg;
     ChatRequest.Message := "";
     ChatRequest.Temperature := Params.Temperature (Config.DefaultParams cfg);
     ChatRequest.Preamble := Params.Preamble (Config.DefaultParams cfg);
     ChatRequest.ChatHistory := [];
     ChatRequest.PromptTruncation := Params.PromptTruncation (Config.DefaultParams cfg);
     ChatRequest.Connectors := Params.Connectors (Config.DefaultParams cfg);
     ChatRequest.SearchQueriesOnly := Params.SearchQueriesOnly (Config.DefaultParams cfg);
     ChatRequest.Stream := false |}.

(** [chatRequest.Message = v] and [chatRequest.ChatHistory = v] on a copy. *)
Definition set_Message (v : string) (q : ChatRequest.t) : ChatRequest.t :=
  {| ChatRequest.Model := ChatRequest.Model q;
     ChatRequest.Message := v;
     ChatRequest.Temperature := ChatRequest.Temperature q;
     ChatRequest.Preamble := ChatRequest.Preamble q;
     ChatRequest.ChatHistory := ChatRequest.ChatHistory q;
     ChatRequest.PromptTruncation := ChatRequest.PromptTruncation q;
     ChatRequest.Connectors := ChatRequest.Connectors q;
     ChatRequest.SearchQueriesOnly := ChatRequest.SearchQueriesOnly q;
     ChatRequest.Stream := ChatRequest.Stream q |}.

Definition set_ChatHistory (v : list ChatMessage.t) (q : ChatRequest.t) : ChatRequest.t :=
  {| ChatRequest.Model := ChatRequest.Model q;
     ChatRequest.Message := ChatRequest.Message q;
     ChatRequest.Temperature := ChatRequest.Temperature q;
     ChatRequest.Preamble := ChatRequest.Preamble q;
     ChatRequest.ChatHistory := v;
     ChatRequest.PromptTruncation := ChatRequest.PromptTruncation q;
     ChatRequest.Connectors := ChatRequest.Connectors q;
     ChatRequest.SearchQueriesOnly := ChatRequest.SearchQueriesOnly q;
     ChatRequest.Stream := ChatRequest.Stream q |}.

(** The loop that builds the Cohere specific ChatHistory. *)
Fixpoint appendHistory (history : list ChatMessage.t)
    (messages : list Schemas.ChatMessage.t) : list ChatMessage.t :=
  match messages with
  | [] => history
  | message :: rest =>
      appendHistory
        (history ++ [ {| ChatMessage.Role := Schemas.ChatMessage.Role message;
                         ChatMessage.Content := Schemas.ChatMessage.Content message |} ])
        rest
  end.

Definition createRequestSchema (c : Client.t) (request : Schemas.ChatRequest.t)
  : ChatRequest.t :=
  let chatRequest := Client.chatRequestTemplate c in
  let chatRequest :=
    set_Message (Schemas.ChatMessage.Content (Schemas.ChatRequest.Message request))
                chatRequest in
  if (0 <? length (Schemas.ChatRequest.MessageHistory request))%nat
  then set_ChatHistory (appendHistory [] (Schemas.ChatRequest.MessageHistory request))
                       chatRequest
  else chatRequest.

(** The message of the history as Cohere takes it: role and content. *)
Definition to_cohere (message : Schemas.ChatMessage.t) : ChatMessage.t :=
  {| ChatMessage.Role := Schemas.ChatMessage.Role message;
     ChatMessage.Content := Schemas.ChatMessage.Content message |}.

(** The request as it goes out: the headers are set on what
    [http.NewRequestWithContext] built. *)
Definition with_headers (c : Client.t) (req : Request.t) : Request.t :=
  Header_Set "Content-Type" "application/json"
    (Header_Set "Authorization" ("Bearer " +:+ Config.APIKey (Client.config c)) req).

(** Sequencing of calls that return [(value, error)]. *)
Definition and_then {A B} (r : result A) (f : A -> result B) : result B :=
  match r with
  | Ok a => f a
  | Err e => Err e
  | Panic => Panic
  end.

(** [return nil, fmt.Errorf(msg + ": %w", err)] on failure. *)
Definition wrapped {A} (msg : string) (r : result A) : result A :=
  match r with
  | Err e => Err (Errorf msg e)
  | _ => r
  end.

Notation "x <~ c ;; f" := (and_then c (fun x => f))
  (at level 100, c at next level, right associativity).

Section WithEnvironment.

(** The package constant [providerName], declared outside the sources. *)
Variable providerName : string.
(** [json.Marshal] on a chat request, [json.Unmarshal] into a
    [ChatCompletion], and [http.NewRequestWithContext]. *)
Variable json_Marshal : ChatRequest.t -> outcome bytes.
Variable json_Unmarshal : bytes -> outcome ChatCompletion.t.
Variable http_NewRequestWithContext : string -> string -> bytes -> outcome Request.t.
(** What [time.Now().UTC().Unix()] reads during the call. *)
Variable unix_now : Z.

Definition doChatRequest (c : Client.t) (payload : ChatRequest.t)
  : result Schemas.ChatResponse.t :=
  rawPayload <~ wrapped "unable to marshal cohere chat request payload"
                  (returned (json_Marshal payload)) ;;
  req <~ wrapped "unable to create cohere chat request"
           (returned (http_NewRequestWithContext MethodPost (Client.chatURL c) rawPayload)) ;;
  let req := Header_Set "Authorization"
               ("Bearer " +:+ Config.APIKey (Client.config c)) req in
  let req := Header_Set "Content-Type" "application/json" req in
  resp <~ wrapped "failed to send cohere chat request"
            (returned (Client.httpClient c req)) ;;
  if negb (Response.StatusCode resp =? StatusOK) then
    (* the body is read and the failure logged *)
    if negb (Response.StatusCode resp =? StatusOK) then
      Err (Client.errMapper c resp)
    else
      (* Server & client errors result in the same error to keep gateway resilient *)
      Err ErrProviderUnavailable
  else
    bodyBytes <~ returned (Response.Body resp) ;;
    cohereCompletion <~ returned (json_Unmarshal bodyBytes) ;;
    Ok {| Schemas.ChatResponse.ID := ChatCompletion.ResponseID cohereCompletion;
              Schemas.ChatResponse.Created := unix_now;   (* Cohere doesn't provide this *)
              Schemas.ChatResponse.Provider := providerName;
              Schemas.ChatResponse.ModelName := Config.Model (Client.config c);
              Schemas.ChatResponse.Cached := false;
              Schemas.ChatResponse.ModelResponse :=
                {| Schemas.ModelResponse.SystemID :=
                     {[ "generationId" := ChatCompletion.GenerationID cohereCompletion;
                        "responseId" := ChatCompletion.ResponseID cohereCompletion ]};
                   Schemas.ModelResponse.Message :=
                     {| Schemas.ChatMessage.Role := "model";
                        Schemas.ChatMessage.Content := ChatCompletion.Text cohereCompletion;
                        Schemas.ChatMessage.Name := "" |};
                   Schemas.ModelResponse.TokenUsage :=
                     {| Schemas.TokenUsage.PromptTokens :=
                          TokenCount.PromptTokens (ChatCompletion.TokenCount cohereCompletion);
                        Schemas.TokenUsage.ResponseTokens :=
                          TokenCount.ResponseTokens (ChatCompletion.TokenCount cohereCompletion);
                        Schemas.TokenUsage.TotalTokens :=
                          TokenCount.TotalTokens (ChatCompletion.TokenCount cohereCompletion) |}
                |}
       |}.

(** [Chat] sends a chat request to the specified cohere model. *)
Definition Chat (c : Client.t) (request : Schemas.ChatRequest.t)
  : result Schemas.ChatResponse.t :=
  let chatRequest := createRequestSchema c request in
  match doChatRequest c chatRequest with
  | Err err => Err err
  | Panic => Panic
  | Ok chatResponse =>
      if (String.length
            (Schemas.ChatMessage.Content
               (Schemas.ModelResponse.Message
                  (Schemas.ChatResponse.ModelResponse chatResponse))) =? 0)%nat
      then Err ErrEmptyResponse
      else Ok chatResponse
  end.

End WithEnvironment.

End Cohere.

(** ** The router's bookkeeping around a call *)

Module Router.
Import Latency Providers Routing.

(** Modelled from the spec: the router and its dispatch loop (section
    4.3) and the error classifier (section 4.5) are not among the
    sources. After a call to the candidate [M] the loop does this:
    on success, [M.latency.observe(elapsed)] and [M.healthy = true]; on
    a transient error, [M.healthy = false] and no observation; on any
    other error, nothing. *)
Inductive error_kind := NonRetryable | TransientUnavailable | BudgetExhausted.

Definition set_Healthy (h : bool) (m : Model) : Model :=
  {| ID := ID m; Healthy := h;
     LatencyUpdateInterval := LatencyUpdateInterval m;
     ChatLatency := ChatLatency m |}.

Definition succeeded (elapsed : Q) (m : Model) : Model :=
  {| ID := ID m; Healthy := true;
     LatencyUpdateInterval := LatencyUpdateInterval m;
     ChatLatency := observe elapsed (ChatLatency m) |}.

Definition record_attempt {A} (classify : error -> error_kind) (elapsed : Q)
    (reply : result A) (m : Model) : Model :=
  match reply with
  | Ok _ => succeeded elapsed m
  | Err e =>
      match classify e with
      | TransientUnavailable => set_Healthy false m
      | NonRetryable | BudgetExhausted => m
      end
  | Panic => m
  end.

(** The model with identity [id] is shared between the router and the
    schedules: a change to it shows in every schedule that refers to it. *)
Definition update_model (id : string) (f : Model -> Model) (r : LeastLatencyRouting)
  : LeastLatencyRouting :=
  {| latencyGetter := latencyGetter r;
     warmupIdx := warmupIdx r;
     schedules :=
       (λ s, if String.eqb (ID (model s)) id
             then {| model := f (model s); expireAt := expireAt s |}
             else s) <$> schedules r |}.

Section WithClock.

Variable clock : nat -> Time.

(** One request whose first candidate answers after [elapsed]. *)
Definition served_request (elapsed : Q) (r : LeastLatencyRouting)
  : Clk (result Model * LeastLatencyRouting) :=
  candidate <- Next clock (Iterator r) ;;
  match candidate.1 with
  | Ok m => ret (Ok m, update_model (ID m) (succeeded elapsed) candidate.2)
  | _ => ret candidate
  end.

(** Requests one after the other, each answered by its first candidate. *)
Fixpoint served_requests (latencies : list Q) (r : LeastLatencyRouting)
  : Clk (list (result Model) * LeastLatencyRouting) :=
  match latencies with
  | [] => ret ([], r)
  | elapsed :: rest =>
      first <- served_request elapsed r ;;
      others <- served_requests rest first.2 ;;
      ret (first.1 :: others.1, others.2)
  end.

(** A router built over [models], then the requests. *)
Definition cold_start (models : list Model) (latencies : list Q)
  : Clk (list (result Model) * LeastLatencyRouting) :=
  r <- NewLeastLatencyRouting clock ChatLatency models ;;
  served_requests latencies r.

End WithClock.

(** A healthy model that has served nothing yet. *)
Definition fresh_model (id : string) (interval : Duration) (threshold : nat) (d : Q)
  : Model :=
  {| ID := id; Healthy := true; LatencyUpdateInterval := interval;
     ChatLatency := fresh threshold d |}.

(** Three healthy models that have served nothing, with warm-up
    threshold [w], in configured order. *)
Definition three_models (id1 id2 id3 : string) (i1 i2 i3 : Duration) (d1 d2 d3 : Q)
    (w : nat) : list Model :=
  [fresh_model id1 i1 w d1; fresh_model id2 i2 w d2; fresh_model id3 i3 w d3].

Definition yielded_id (candidate : result Model) : option string :=
  match candidate with
  | Ok m => Some (ID m)
  | _ => None
  end.

End Router.

(** ** Sample routers and clients *)

Module Samples.
Import Latency Providers Routing Router.

(** A clock that stands still, and one that advances by 10 per reading. *)
Definition frozen (now : Time) : nat -> Time := fun _ => now.
Definition ticking : nat -> Time := fun k => 10 * Z.of_nat k.

(** A warmed-up model with average latency [v]. *)
Definition warm (id : string) (v : Q) : Model :=
  {| ID := id; Healthy := true; LatencyUpdateInterval := 30;
     ChatLatency := {| avg := v; sample_count := 3; warmup_threshold := 3;
                       decay := 6 # 100 |} |}.

Definition cold (id : string) : Model := fresh_model id 30 3 (6 # 100).

Definition router_of (ss : list ModelSchedule) : LeastLatencyRouting :=
  {| latencyGetter := ChatLatency; warmupIdx := 0; schedules := ss |}.

(** One warmed-up model. *)
Definition single : LeastLatencyRouting :=
  router_of [ {| model := warm "first" 3; expireAt := 130 |} ].

(** Three warmed-up models; at time 100 the second and third have expired. *)
Definition stale : LeastLatencyRouting :=
  router_of [ {| model := warm "first" 1; expireAt := 130 |};
              {| model := warm "second" 5; expireAt := 90 |};
              {| model := warm "third" 3; expireAt := 80 |} ].

(** Three warmed-up models, none expired at time 100. *)
Definition steady : LeastLatencyRouting :=
  router_of [ {| model := warm "first" 4; expireAt := 130 |};
              {| model := warm "second" 2; expireAt := 120 |};
              {| model := warm "third" 2; expireAt := 110 |} ].

(** A warmed-up model between two cold ones. *)
Definition warming : LeastLatencyRouting :=
  router_of [ {| model := cold "first"; expireAt := 130 |};
              {| model := warm "second" 2; expireAt := 120 |};
              {| model := cold "third"; expireAt := 110 |} ].

(** No model is healthy. *)
Definition down : LeastLatencyRouting :=
  router_of [ {| model := set_Healthy false (warm "first" 4); expireAt := 130 |} ].

(** A Cohere client whose provider answers every request with [reply]. *)
Definition config : Cohere.Config.t :=
  {| Cohere.Config.Model := "command-r";
     Cohere.Config.APIKey := "secret";
     Cohere.Config.DefaultParams :=
       {| Cohere.Params.Temperature := 3 # 10;
          Cohere.Params.Preamble := "";
          Cohere.Params.PromptTruncation := "AUTO";
          Cohere.Params.Connectors := [];
          Cohere.Params.SearchQueriesOnly := false |} |}.

(** A mapper that tells a rate limit from the other failures. *)
Definition mapper (resp : Http.Response.t) : error :=
  if Http.Response.StatusCode resp =? 429
  then ExternalError "rate limited"
  else ExternalError "provider failed".

Definition client (reply : outcome Http.Response.t) : Cohere.Client.t :=
  {| Cohere.Client.chatURL := "https://api.cohere.ai/v1/chat";
     Cohere.Client.chatRequestTemplate := Cohere.NewChatRequestFromConfig config;
     Cohere.Client.errMapper := mapper;
     Cohere.Client.config := config;
     Cohere.Client.httpClient := fun _ => reply |}.

Definition answer (status : Z) : Http.Response.t :=
  {| Http.Response.StatusCode := status;
     Http.Response.Header := ∅;
     Http.Response.Body := Done [] |}.

(** The JSON codec and the request constructor, standing for the
    libraries: what the provider said is decoded to [completion]. *)
Definition marshal (payload : Cohere.ChatRequest.t) : outcome Http.bytes := Done [].

Definition unmarshal (completion : Cohere.ChatCompletion.t) (body : Http.bytes)
  : outcome Cohere.ChatCompletion.t := Done completion.

Definition new_request (method url : string) (body : Http.bytes) : outcome Http.Request.t :=
  Done {| Http.Request.Method := method; Http.Request.URL := url;
          Http.Request.Header := ∅; Http.Request.Body := body |}.

Definition completion (text : string) : Cohere.ChatCompletion.t :=
  {| Cohere.ChatCompletion.ResponseID := "r-1";
     Cohere.ChatCompletion.GenerationID := "g-1";
     Cohere.ChatCompletion.Text := text;
     Cohere.ChatCompletion.TokenCount :=
       {| Cohere.TokenCount.PromptTokens := 4;
          Cohere.TokenCount.ResponseTokens := 2;
          Cohere.TokenCount.TotalTokens := 6 |} |}.

Definition user_says (content : string) : Schemas.ChatMessage.t :=
  {| Schemas.ChatMessage.Role := "user";
     Schemas.ChatMessage.Content := content;
     Schemas.ChatMessage.Name := "ann" |}.

Definition question : Schemas.ChatRequest.t :=
  {| Schemas.ChatRequest.Message := user_says "and now?";
     Schemas.ChatRequest.MessageHistory := [user_says "hello"; user_says "tell me"] |}.

End Samples.

(** ** More vocabulary for the router *)

Module Expiry.
Import Providers Routing.

(** A healthy schedule whose deadline passed before [t0]. *)
Definition is_stale (t0 : Time) (s : ModelSchedule) : bool :=
  Healthy (model s) && (expireAt s <? t0).

Definition stale_count (t0 : Time) (r : LeastLatencyRouting) : nat :=
  length (List.filter (is_stale t0) (schedules r)).

(** The schedule [NewSchedule] makes of [m] at the reading [now]. *)
Definition scheduled (now : Time) (m : Model) : ModelSchedule :=
  {| model := m; expireAt := now + LatencyUpdateInterval m |}.

End Expiry.

(** ** More vocabulary for the Cohere client *)

Module CohereTerms.
Import Http Cohere.

(** The normalized response [doChatRequest] makes of a completion. *)
Definition response_of (providerName : string) (unix_now : Z) (c : Client.t)
    (completion : ChatCompletion.t) : Schemas.ChatResponse.t :=
  {| Schemas.ChatResponse.ID := ChatCompletion.ResponseID completion;
     Schemas.ChatResponse.Created := unix_now;
     Schemas.ChatResponse.Provider := providerName;
     Schemas.ChatResponse.ModelName := Config.Model (Client.config c);
     Schemas.ChatResponse.Cached := false;
     Schemas.ChatResponse.ModelResponse :=
       {| Schemas.ModelResponse.SystemID :=
            {[ "generationId" := ChatCompletion.GenerationID completion;
               "responseId" := ChatCompletion.ResponseID completion ]};
          Schemas.ModelResponse.Message :=
            {| Schemas.ChatMessage.Role := "model";
               Schemas.ChatMessage.Content := ChatCompletion.Text completion;
               Schemas.ChatMessage.Name := "" |};
          Schemas.ModelResponse.TokenUsage :=
            {| Schemas.TokenUsage.PromptTokens :=
                 TokenCount.PromptTokens (ChatCompletion.TokenCount completion);
               Schemas.TokenUsage.ResponseTokens :=
                 TokenCount.ResponseTokens (ChatCompletion.TokenCount completion);
               Schemas.TokenUsage.TotalTokens :=
                 TokenCount.TotalTokens (ChatCompletion.TokenCount completion) |}
       |}
  |}.

(** The content of the message of a response. *)
Definition content (response : Schemas.ChatResponse.t) : string :=
  Schemas.ChatMessage.Content
    (Schemas.ModelResponse.Message (Schemas.ChatResponse.ModelResponse response)).

(** Two clients that differ at most in their HTTP client. *)
Definition same_but_transport (c c' : Client.t) : Prop :=
  Client.chatURL c' = Client.chatURL c
  ∧ Client.chatRequestTemplate c' = Client.chatRequestTemplate c
  ∧ Client.errMapper c' = Client.errMapper c
  ∧ Client.config c' = Client.config c.

End CohereTerms.

(** ** The server manager *)

Module Api.

(** [pkg/api/servers.go]. The HTTP server ([glide/pkg/api/http]) is a
    collaborator outside the sources: of [http.NewServer],
    [server.Run()] and [server.Shutdown(ctx)] only the results are kept.
    A [sync.WaitGroup] is its counter. The goroutine that [Start]
    launches runs interleaved with the caller, one statement at a time. *)
Section WithServer.

Variables Server ServerConfig : Type.
(** [http.NewServer]: a server (or nil) and an error (or nil). *)
Variable http_NewServer : ServerConfig -> option Server * option error.

Record ServerManager := {
  httpServer : option Server;
  shutdownWG : Z
}.

Definition NewServerManager (httpConfig : ServerConfig)
  : option ServerManager * option error :=
  let (server, err) := http_NewServer httpConfig in
  match err with
  | Some e => (None, Some e)
  | None => (Some {| httpServer := server; shutdownWG := 0 |}, None)
  end.

(** Where the goroutine of [Start] stands: in [mgr.httpServer.Run()],
    before [println(err)], before the deferred
    [mgr.shutdownWG.Done()], or at its end. *)
Inductive goroutine :=
  | Running
  | Returned (err : option error)
  | Printed
  | Ended.

(** The calls a user of the manager makes, one after the other. *)
Inductive call := CallStart | CallShutdown.

(** Where the caller stands: between two calls, in [Start] between
    [shutdownWG.Add(1)] and the [go] statement, or in [Shutdown] at
    [shutdownWG.Wait()] with the error of [httpServer.Shutdown]. *)
Inductive caller :=
  | Idle
  | Added
  | Waiting (err : option error).

Record System := {
  mgr : ServerManager;
  goroutines : list goroutine;
  at_ : caller;
  pending : list call;
  shutdowns : list (option error)     (* what the calls of Shutdown returned *)
}.

Definition with_counter (delta : Z) (m : ServerManager) : ServerManager :=
  {| httpServer := httpServer m; shutdownWG := shutdownWG m + delta |}.

Inductive step : System -> System -> Prop :=
  (* Start: mgr.httpServer == nil, nothing to do *)
  | start_without_server m gs rest done_ :
      httpServer m = None ->
      step {| mgr := m; goroutines := gs; at_ := Idle;
              pending := CallStart :: rest; shutdowns := done_ |}
           {| mgr := m; goroutines := gs; at_ := Idle;
              pending := rest; shutdowns := done_ |}
  (* Start: mgr.shutdownWG.Add(1) *)
  | start_add m gs rest done_ :
      httpServer m <> None ->
      step {| mgr := m; goroutines := gs; at_ := Idle;
              pending := CallStart :: rest; shutdowns := done_ |}
           {| mgr := with_counter 1 m; goroutines := gs; at_ := Added;
              pending := rest; shutdowns := done_ |}
  (* Start: go func() { ... }() *)
  | start_go m gs rest done_ :
      step {| mgr := m; goroutines := gs; at_ := Added;
              pending := rest; shutdowns := done_ |}
           {| mgr := m; goroutines := gs ++ [Running]; at_ := Idle;
              pending := rest; shutdowns := done_ |}
  (* Shutdown: err stays nil without a server *)
  | shutdown_without_server m gs rest done_ :
      httpServer m = None ->
      step {| mgr := m; goroutines := gs; at_ := Idle;
              pending := CallShutdown :: rest; shutdowns := done_ |}
           {| mgr := m; goroutines := gs; at_ := Waiting None;
              pending := rest; shutdowns := done_ |}
  (* Shutdown: err = mgr.httpServer.Shutdown(ctx) *)
  | shutdown_server m gs rest done_ err :
      httpServer m <> None ->
      step {| mgr := m; goroutines := gs; at_ := Idle;
              pending := CallShutdown :: rest; shutdowns := done_ |}
           {| mgr := m; goroutines := gs; at_ := Waiting err;
              pending := rest; shutdowns := done_ |}
  (* Shutdown: mgr.shutdownWG.Wait() passes at zero; return err *)
  | shutdown_return m gs rest done_ err :
      shutdownWG m = 0 ->
      step {| mgr := m; goroutines := gs; at_ := Waiting err;
              pending := rest; shutdowns := done_ |}
           {| mgr := m; goroutines := gs; at_ := Idle;
              pending := rest; shutdowns := done_ ++ [err] |}
  (* the goroutine: err := mgr.httpServer.Run() returns *)
  | run_returns m gs i c rest done_ err :
      gs !! i = Some Running ->
      step {| mgr := m; goroutines := gs; at_ := c;
              pending := rest; shutdowns := done_ |}
           {| mgr := m; goroutines := <[i := Returned err]> gs; at_ := c;
              pending := rest; shutdowns := done_ |}
  (* the goroutine: println(err) *)
  | run_prints m gs i c rest done_ err :
      gs !! i = Some (Returned err) ->
      step {| mgr := m; goroutines := gs; at_ := c;
              pending := rest; shutdowns := done_ |}
           {| mgr := m; goroutines := <[i := Printed]> gs; at_ := c;
              pending := rest; shutdowns := done_ |}
  (* the goroutine: the deferred mgr.shutdownWG.Done() *)
  | run_done m gs i c rest done_ :
      gs !! i = Some Printed ->
      step {| mgr := m; goroutines := gs; at_ := c;
              pending := rest; shutdowns := done_ |}
           {| mgr := with_counter (-1) m; goroutines := <[i := Ended]> gs; at_ := c;
              pending := rest; shutdowns := done_ |}.

(** A manager as [NewServerManager] returns it, and the calls to come. *)
Definition boot (m : ServerManager) (program : list call) : System :=
  {| mgr := m; goroutines := []; at_ := Idle; pending := program; shutdowns := [] |}.

(** The goroutines that have not called [Done] yet. *)
Definition unfinished (gs : list goroutine) : nat :=
  length (List.filter (λ g, match g with Ended => false | _ => true end) gs).

Definition alive (g : goroutine) : bool :=
  match g with Ended => false | _ => true end.

(** The counter of the wait group counts the goroutines that have not
    called [Done], plus one while [Start] stands between [Add] and
    [go]. *)
Definition counted (s : System) : Prop :=
  shutdownWG (mgr s)
  = Z.of_nat (unfinished (goroutines s))
    + (match at_ s with Added => 1 | _ => 0 end).

(** The statements a goroutine has left to run. *)
Definition remaining (g : goroutine) : nat :=
  match g with
  | Running => 3
  | Returned _ => 2
  | Printed => 1
  | Ended => 0
  end.

(** The statements the goroutines have left to run, all together. *)
Definition work (gs : list goroutine) : nat := foldr (λ g n, remaining g + n)%nat 0%nat gs.

End WithServer.

Arguments httpServer {Server} _.
Arguments shutdownWG {Server} _.
Arguments NewServerManager {Server ServerConfig} http_NewServer httpConfig.
Arguments mgr {Server} _.
Arguments goroutines {Server} _.
Arguments at_ {Server} _.
Arguments pending {Server} _.
Arguments shutdowns {Server} _.
Arguments with_counter {Server} delta m.
Arguments step {Server} _ _.
Arguments boot {Server} m program.
Arguments counted {Server} s.

End Api.

(** ** More samples *)

Module MoreSamples.
Import Latency Providers Routing Router Samples Api.

(** The router [warming] with the cursor at its largest value. *)
Definition wrapping : LeastLatencyRouting :=
  {| latencyGetter := ChatLatency; warmupIdx := 2 ^ 32 - 1;
     schedules := schedules warming |}.

(** The same question, asked under another role and other names. *)
Definition system_says (content : string) : Schemas.ChatMessage.t :=
  {| Schemas.ChatMessage.Role := "user";
     Schemas.ChatMessage.Content := content;
     Schemas.ChatMessage.Name := "" |}.

Definition question_again : Schemas.ChatRequest.t :=
  {| Schemas.ChatRequest.Message :=
       {| Schemas.ChatMessage.Role := "system";
          Schemas.ChatMessage.Content := "and now?";
          Schemas.ChatMessage.Name := "bob" |};
     Schemas.ChatRequest.MessageHistory := [system_says "hello"; system_says "tell me"] |}.

(** A JSON encoder that fails, and a response whose body cannot be read. *)
Definition marshal_fails (payload : Cohere.ChatRequest.t) : outcome Http.bytes :=
  Failed "unsupported value".

Definition unmarshal_fails (body : Http.bytes) : outcome Cohere.ChatCompletion.t :=
  Failed "unexpected end of JSON input".

Definition unreadable : Http.Response.t :=
  {| Http.Response.StatusCode := 200;
     Http.Response.Header := ∅;
     Http.Response.Body := Failed "unexpected EOF" |}.

(** A server manager with a server, and three moments of a run in which
    [Start] and then [Shutdown] are called: the goroutine has come back
    from [Run] while [Shutdown] waits; the goroutine has ended; and
    [Shutdown] has returned. *)
Definition new_server (cfg : unit) : option string * option error :=
  (Some "server", None).

Definition manager : ServerManager string :=
  {| httpServer := Some "server"; shutdownWG := 0 |}.

Definition serving : System string :=
  {| mgr := with_counter 1 manager;
     goroutines := [Returned (Some (ExternalError "closed"))];
     at_ := Waiting None; pending := []; shutdowns := [] |}.

Definition drained : System string :=
  {| mgr := with_counter (-1) (with_counter 1 manager);
     goroutines := [Ended];
     at_ := Waiting None; pending := []; shutdowns := [] |}.

Definition stopped : System string :=
  {| mgr := with_counter (-1) (with_counter 1 manager);
     goroutines := [Ended];
     at_ := Idle; pending := []; shutdowns := [None] |}.

End MoreSamples.

(** * Properties of the least-latency router *)

Module RoutingFacts.
Import Latency Providers Routing.

Section Facts.

Variable clock : nat -> Time.

(** *** [getColdModelSchedules] *)

Lemma coldFrom_acc getter p ss acc :
  coldFrom getter p ss acc = acc ++ coldFrom getter p ss [].
Proof.
  revert p acc. induction ss as [|s ss IH]; intros p acc; simpl.
  - by rewrite app_nil_r.
  - destruct (is_cold getter s); [|done].
    rewrite (IH (S p) (acc ++ _)), (IH (S p) [_]).
    by rewrite <- app_assoc.
Qed.

Lemma coldFrom_cons getter p s ss :
  coldFrom getter p (s :: ss) [] =
  (if is_cold getter s then [(p, s)] else []) ++ coldFrom getter (S p) ss [].
Proof.
  simpl. destruct (is_cold getter s); [|done]. apply coldFrom_acc.
Qed.

Lemma elem_of_coldFrom getter p ss q s :
  (q, s) ∈ coldFrom getter p ss [] ↔
  (p ≤ q)%nat ∧ ss !! (q - p)%nat = Some s ∧ is_cold getter s = true.
Proof.
  revert p. induction ss as [|s0 ss IH]; intros p.
  - simpl. split; [by intros ?%elem_of_nil | by intros (_ & ? & _)].
  - rewrite coldFrom_cons, elem_of_app, IH. split.
    + intros [Hhd | (Hle & Hlk & Hc)].
      * destruct (is_cold getter s0) eqn:E; [|by apply elem_of_nil in Hhd].
        apply list_elem_of_singleton in Hhd. injection Hhd as -> ->.
        by rewrite Nat.sub_diag.
      * split; [lia|]. split; [|done].
        replace (q - p)%nat with (S (q - S p)) by lia. done.
    + intros (Hle & Hlk & Hc).
      destruct (decide (q = p)) as [->|Hne].
      * left. rewrite Nat.sub_diag in Hlk. injection Hlk as ->.
        rewrite Hc. by apply list_elem_of_singleton.
      * right. split; [lia|]. split; [|done].
        replace (q - p)%nat with (S (q - S p)) in Hlk by lia. done.
Qed.

Lemma elem_of_cold r q s :
  (q, s) ∈ getColdModelSchedules r ↔
  schedules r !! q = Some s ∧ is_cold (latencyGetter r) s = true.
Proof.
  unfold getColdModelSchedules. rewrite elem_of_coldFrom, Nat.sub_0_r.
  split; [by intros (_ & ? & ?) | intros [? ?]; split; [lia | done]].
Qed.

Lemma is_cold_healthy getter s : is_cold getter s = true → Healthy (model s) = true.
Proof. unfold is_cold. by intros [? _]%andb_true_iff. Qed.

Lemma cold_nil_iff r :
  getColdModelSchedules r = [] ↔
  ∀ s, s ∈ schedules r → is_cold (latencyGetter r) s = false.
Proof.
  split.
  - intros Hnil s [q Hq]%list_elem_of_lookup.
    destruct (is_cold (latencyGetter r) s) eqn:E; [|done].
    assert ((q, s) ∈ getColdModelSchedules r) as Hin by by apply elem_of_cold.
    rewrite Hnil in Hin. by apply elem_of_nil in Hin.
  - intros Hall. destruct (getColdModelSchedules r) as [|[q s] l] eqn:E; [done|].
    assert ((q, s) ∈ getColdModelSchedules r) as Hin by (rewrite E; left).
    apply elem_of_cold in Hin as [Hq Hc].
    rewrite (Hall s) in Hc; [done|]. apply list_elem_of_lookup. eauto.
Qed.

(** *** The latency-based loop *)

Lemma lookup_snoc_Some {A} (pre : list A) (s x : A) (q : nat) :
  (pre ++ [s]) !! q = Some x ↔ pre !! q = Some x ∨ (q = length pre ∧ x = s).
Proof.
  rewrite lookup_app_Some. split.
  - intros [?|[Hle Hq]]; [by left|right].
    destruct (q - length pre)%nat eqn:E; simpl in Hq; [|done].
    injection Hq as <-. split; [lia|done].
  - intros [?|[-> ->]]; [by left|right].
    split; [lia|]. by rewrite Nat.sub_diag.
Qed.

(** An invariant of the loop is one that every turn preserves. *)
Lemma scan_invariant (I : list ModelSchedule → option ptr → nat → Prop) getter :
  (∀ pre s nxt k, I pre nxt k →
     I (pre ++ [s]) (pick clock getter (length pre, s) nxt k).1
                    (pick clock getter (length pre, s) nxt k).2) →
  ∀ ss pre nxt k, I pre nxt k →
     I (pre ++ ss) (scan clock getter (length pre) ss nxt k).1
                   (scan clock getter (length pre) ss nxt k).2.
Proof.
  intros Hstep. induction ss as [|s ss IH]; intros pre nxt k HI.
  - simpl. by rewrite app_nil_r.
  - simpl. unfold bind. specialize (Hstep pre s nxt k HI).
    destruct (pick clock getter (length pre, s) nxt k) as [nxt' k'].
    specialize (IH (pre ++ [s]) nxt' k' Hstep).
    rewrite length_app in IH. simpl in IH.
    replace (length pre + 1)%nat with (S (length pre)) in IH by lia.
    by rewrite <- app_assoc in IH.
Qed.

Lemma pick_unhealthy getter p s nxt k :
  Healthy (model s) = false → pick clock getter (p, s) nxt k = (nxt, k).
Proof. intros H. unfold pick. simpl. by rewrite H. Qed.

Lemma pick_first getter p s k :
  Healthy (model s) = true → pick clock getter (p, s) None k = (Some (p, s), k).
Proof. intros H. unfold pick. simpl. by rewrite H. Qed.

Lemma pick_later getter p s q x k :
  Healthy (model s) = true →
  pick clock getter (p, s) (Some (q, x)) k =
  if (expireAt s <? clock k) && (expireAt s <? expireAt x)
  then (Some (p, s), S k)
  else if expireAt s <? clock (S k)
       then (Some (q, x), S (S k))
       else if (expireAt x <? clock (S (S k)))
               || Qle_bool (Value (getter (model x))) (Value (getter (model s)))
            then (Some (q, x), S (S (S k)))
            else (Some (p, s), S (S (S k))).
Proof.
  intros H. unfold pick, bind, Expired, time_Now, ret, After, Before, ExpireAt, gt.
  simpl. rewrite H. simpl.
  destruct (expireAt s <? clock k), (expireAt s <? expireAt x); simpl; try done;
    destruct (expireAt s <? clock (S k)); simpl; try done;
    destruct (expireAt x <? clock (S (S k))); simpl; try done;
    by destruct (Qle_bool _ _).
Qed.

Lemma pick_ticks getter cand nxt k : (k ≤ (pick clock getter cand nxt k).2)%nat.
Proof.
  destruct cand as [p s]. destruct (Healthy (model s)) eqn:Hh.
  - destruct nxt as [[q x]|]; [|by rewrite pick_first].
    rewrite pick_later by done.
    repeat match goal with |- context [if ?b then _ else _] => destruct b end;
      simpl; lia.
  - by rewrite pick_unhealthy.
Qed.

Lemma holds_healthy_keep pre s q x :
  holds_healthy pre (Some (q, x)) → holds_healthy (pre ++ [s]) (Some (q, x)).
Proof. intros [H1 H2]. split; [|done]. apply lookup_snoc_Some. by left. Qed.

Lemma holds_healthy_new pre s :
  Healthy (model s) = true → holds_healthy (pre ++ [s]) (Some (length pre, s)).
Proof. intros Hh. split; [|done]. apply lookup_snoc_Some. by right. Qed.

Lemma pick_holds_healthy getter pre s nxt k :
  holds_healthy pre nxt →
  holds_healthy (pre ++ [s]) (pick clock getter (length pre, s) nxt k).1.
Proof.
  intros H. destruct (Healthy (model s)) eqn:Hh.
  - destruct nxt as [[q x]|].
    + rewrite pick_later by done.
      repeat match goal with |- context [if ?b then _ else _] => destruct b end;
        cbn [fst]; auto using holds_healthy_keep, holds_healthy_new.
    + rewrite pick_first by done. by apply holds_healthy_new.
  - rewrite pick_unhealthy by done. cbn [fst].
    destruct nxt as [[q x]|]; [by apply holds_healthy_keep|].
    intros y [Hy | ->%list_elem_of_singleton]%elem_of_app; [by apply H | done].
Qed.

Lemma scan_holds_healthy getter ss k :
  holds_healthy ss (scan clock getter 0 ss None k).1.
Proof.
  apply (scan_invariant (λ pre nxt _, holds_healthy pre nxt) getter
           (λ pre s nxt k, pick_holds_healthy getter pre s nxt k) ss [] None k).
  by intros ? ?%elem_of_nil.
Qed.

Lemma scan_ticks getter ss p nxt k : (k ≤ (scan clock getter p ss nxt k).2)%nat.
Proof.
  revert p nxt k. induction ss as [|s ss IH]; intros p nxt k; simpl; [done|].
  unfold bind. pose proof (pick_ticks getter (p, s) nxt k) as Hp.
  destruct (pick clock getter (p, s) nxt k) as [nxt' k']. simpl in Hp.
  specialize (IH (S p) nxt' k'). lia.
Qed.

(** *** The two branches of [Next] *)

Lemma coldFrom_length getter p ss :
  (length (coldFrom getter p ss []) ≤ length ss)%nat.
Proof.
  revert p. induction ss as [|s ss IH]; intros p; [done|].
  rewrite coldFrom_cons, length_app. specialize (IH (S p)).
  destruct (is_cold getter s); simpl; lia.
Qed.

Lemma cold_length r :
  (length (getColdModelSchedules r) ≤ length (schedules r))%nat.
Proof. apply coldFrom_length. Qed.

Lemma uint32_small z : 0 ≤ z < 2 ^ 32 → uint32 z = z.
Proof. intros H. unfold uint32. by apply Z.mod_small. Qed.

(** [r.warmupIdx.Add(1) - 1] is the cursor before the addition. *)
Lemma uint32_add_sub z : uint32 (uint32 (z + 1) - 1) = uint32 z.
Proof.
  unfold uint32. rewrite Zminus_mod_idemp_l. f_equal. lia.
Qed.

Lemma Next_warm_up r k :
  getColdModelSchedules r ≠ [] →
  Z.of_nat (length (schedules r)) < 2 ^ 32 →
  ∃ p s,
    getColdModelSchedules r
      !! Z.to_nat (uint32 (warmupIdx r) mod Z.of_nat (length (getColdModelSchedules r)))
      = Some (p, s)
    ∧ Next clock r k
      = (Ok (model s), touched r (uint32 (warmupIdx r + 1)) p s (clock k), S k).
Proof.
  intros Hne Hlen. pose proof (cold_length r) as Hcl.
  unfold Next. set (cold := getColdModelSchedules r) in *.
  assert (0 < length cold)%nat as Hpos by (destruct cold; [done | simpl; lia]).
  destruct (Nat.ltb_spec 0 (length cold)) as [_|]; [|lia].
  rewrite uint32_add_sub, (uint32_small (Z.of_nat (length cold))) by lia.
  destruct (Z.eqb_spec (Z.of_nat (length cold)) 0) as [|_]; [lia|].
  set (i := Z.to_nat (uint32 (warmupIdx r) mod Z.of_nat (length cold))).
  assert (i < length cold)%nat as Hi.
  { subst i. pose proof (Z.mod_pos_bound (uint32 (warmupIdx r)) (Z.of_nat (length cold))).
    lia. }
  destruct (lookup_lt_is_Some_2 cold i Hi) as [[p s] Hps].
  exists p, s. split; [done|]. by rewrite Hps.
Qed.

Lemma Next_latency_based r k :
  getColdModelSchedules r = [] →
  Next clock r k =
  let found := scan clock (latencyGetter r) 0 (schedules r) None k in
  match found.1 with
  | Some (p, s) =>
      (Ok (model s), touched r (warmupIdx r) p s (clock found.2), S found.2)
  | None => (Err ErrNoHealthyModels, r, found.2)
  end.
Proof.
  intros Hnil. unfold Next. rewrite Hnil. simpl. unfold bind.
  destruct (scan clock (latencyGetter r) 0 (schedules r) None k) as [[[p s]|] k']; done.
Qed.

(** Whatever [Next] yields is the model of a healthy schedule. *)
Lemma Next_Ok_healthy r k m :
  (Next clock r k).1.1 = Ok m →
  ∃ p s, schedules r !! p = Some s ∧ model s = m ∧ Healthy m = true.
Proof.
  destruct (decide (getColdModelSchedules r = [])) as [Hnil|Hne].
  - rewrite Next_latency_based by done. cbn zeta.
    pose proof (scan_holds_healthy (latencyGetter r) (schedules r) k) as Hh.
    destruct (scan clock (latencyGetter r) 0 (schedules r) None k).1 as [[p s]|];
      [|done].
    simpl. intros [= <-]. destruct Hh. eauto.
  - unfold Next. set (cold := getColdModelSchedules r) in *.
    assert (0 < length cold)%nat by (destruct cold; [done | simpl; lia]).
    destruct (Nat.ltb_spec 0 (length cold)); [|lia].
    destruct (_ =? 0); [done|].
    destruct (cold !! _) as [[p s]|] eqn:Hps; [|done].
    simpl. intros [= <-].
    apply list_elem_of_lookup_2, elem_of_cold in Hps as [? ?%is_cold_healthy].
    eauto.
Qed.

(** *** The priority cascade *)

Section Cascade.

Variable getter : LatencyGetter.
(** The call starts at reading [k0]; its readings lie in [[t0, t1]]. *)
Variables (k0 : nat) (t0 t1 : Time).
Hypothesis readings : ∀ j, (k0 ≤ j)%nat → t0 ≤ clock j ≤ t1.

Lemma pick_result_ticks (pre : list ModelSchedule) s nxt k :
  (k0 ≤ k)%nat → (k0 ≤ (pick clock getter (length pre, s) nxt k).2)%nat.
Proof. pose proof (pick_ticks getter (length pre, s) nxt k). lia. Qed.

Lemma pick_expired_first pre s nxt k :
  expired_first k0 t0 pre nxt k →
  expired_first k0 t0 (pre ++ [s]) (pick clock getter (length pre, s) nxt k).1
                             (pick clock getter (length pre, s) nxt k).2.
Proof.
  intros (Hh & Hk & Hmin).
  split; [by apply pick_holds_healthy|]. split; [by apply pick_result_ticks|].
  intros (s' & Hin & Hs' & Hexp).
  destruct (Healthy (model s)) eqn:Hhs.
  - destruct nxt as [[q x]|].
    + destruct Hh as [Hqx Hhx].
      pose proof (lookup_lt_Some _ _ _ Hqx) as Hq.
      rewrite pick_later by done.
      pose proof (readings k ltac:(lia)) as Hr0.
      pose proof (readings (S k) ltac:(lia)) as Hr1.
      pose proof (readings (S (S k)) ltac:(lia)) as Hr2.
      destruct (Z.ltb_spec (expireAt x) t0) as [Hx|Hx].
      * (* the held schedule is already the earliest of the slice *)
        destruct Hmin as (q1 & x1 & [= <- <-] & _ & _ & Hall).
        { exists x. split; [|done]. apply list_elem_of_lookup. eauto. }
        assert (earliest_expiry (pre ++ [s]) q x → ∃ q2 s2,
                  Some (q, x) = Some (q2, s2) ∧ earliest_expiry (pre ++ [s]) q2 s2)
          as Hkeep by eauto.
        destruct (Z.ltb_spec (expireAt s) (clock k));
          destruct (Z.ltb_spec (expireAt s) (expireAt x)); cbn [andb fst].
        -- exists (length pre), s. split; [done|].
           split; [apply lookup_snoc_Some; by right|]. split; [done|].
           intros q' y [Hy|[-> ->]]%lookup_snoc_Some Hhy; [|lia].
           destruct (Hall q' y Hy Hhy). lia.
        -- destruct (Z.ltb_spec (expireAt s) (clock (S k))); cbn [fst].
           2: destruct (Z.ltb_spec (expireAt x) (clock (S (S k)))); [|lia]; cbn [orb fst].
           all: apply Hkeep; split; [apply lookup_snoc_Some; by left|]; split; [done|].
           all: intros q' y [Hy|[-> ->]]%lookup_snoc_Some Hhy; [by apply Hall | lia].
        -- lia.
        -- destruct (Z.ltb_spec (expireAt s) (clock (S k))); cbn [fst].
           2: destruct (Z.ltb_spec (expireAt x) (clock (S (S k)))); [|lia]; cbn [orb fst].
           all: apply Hkeep; split; [apply lookup_snoc_Some; by left|]; split; [done|].
           all: intros q' y [Hy|[-> ->]]%lookup_snoc_Some Hhy; [by apply Hall | lia].
      * (* nothing met so far had expired: the new schedule has *)
        assert (∀ q' y, pre !! q' = Some y → Healthy (model y) = true → t0 ≤ expireAt y)
          as Hnone.
        { intros q' y Hy Hhy. destruct (Z.ltb_spec (expireAt y) t0) as [Hlt|]; [|done].
          destruct Hmin as (q1 & x1 & [= <- <-] & _ & _ & Hall).
          { exists y. split; [|done]. apply list_elem_of_lookup. eauto. }
          destruct (Hall q' y Hy Hhy). lia. }
        assert (expireAt s < t0) as Hs.
        { apply elem_of_app in Hin as [[q' Hq']%list_elem_of_lookup
                                      | ->%list_elem_of_singleton]; [|done].
          specialize (Hnone q' s' Hq' Hs'). lia. }
        destruct (Z.ltb_spec (expireAt s) (clock k)); [|lia].
        destruct (Z.ltb_spec (expireAt s) (expireAt x)); [|lia]. cbn [andb fst].
        exists (length pre), s. split; [done|].
        split; [apply lookup_snoc_Some; by right|]. split; [done|].
        intros q' y [Hy|[-> ->]]%lookup_snoc_Some Hhy; [|lia].
        specialize (Hnone q' y Hy Hhy). lia.
    + rewrite pick_first by done. cbn [fst].
      exists (length pre), s. split; [done|].
      split; [apply lookup_snoc_Some; by right|]. split; [done|].
      intros q' y [Hy|[-> ->]]%lookup_snoc_Some Hhy; [|lia].
      rewrite (Hh y) in Hhy; [done|]. apply list_elem_of_lookup. eauto.
  - rewrite pick_unhealthy by done. cbn [fst].
    destruct Hmin as (q & x & -> & Hqx & Hhx & Hall).
    { exists s'. split; [|done].
      apply elem_of_app in Hin as [?| ->%list_elem_of_singleton]; [done|congruence]. }
    exists q, x. split; [done|].
    split; [apply lookup_snoc_Some; by left|]. split; [done|].
    intros q' y [Hy|[-> ->]]%lookup_snoc_Some Hhy; [by apply Hall | congruence].
Qed.

Lemma pick_fastest_first pre s nxt k :
  fastest_first getter k0 t1 pre nxt k →
  fastest_first getter k0 t1 (pre ++ [s]) (pick clock getter (length pre, s) nxt k).1
                             (pick clock getter (length pre, s) nxt k).2.
Proof.
  intros (Hh & Hk & Hmin).
  split; [by apply pick_holds_healthy|]. split; [by apply pick_result_ticks|].
  intros Hfresh.
  assert (∀ s', s' ∈ pre → Healthy (model s') = true → t1 ≤ expireAt s') as Hpre.
  { intros s' Hin. apply Hfresh, elem_of_app. by left. }
  specialize (Hmin Hpre).
  destruct (Healthy (model s)) eqn:Hhs.
  - assert (t1 ≤ expireAt s) as Hs.
    { apply Hfresh; [|done]. apply elem_of_app. right. by apply list_elem_of_singleton. }
    destruct nxt as [[q x]|].
    + destruct Hh as [Hqx Hhx].
      pose proof (lookup_lt_Some _ _ _ Hqx) as Hq.
      assert (t1 ≤ expireAt x) as Hx.
      { apply Hpre; [|done]. apply list_elem_of_lookup. eauto. }
      destruct (Hmin q x eq_refl) as (_ & _ & Hall).
      rewrite pick_later by done.
      pose proof (readings k ltac:(lia)) as Hr0.
      pose proof (readings (S k) ltac:(lia)) as Hr1.
      pose proof (readings (S (S k)) ltac:(lia)) as Hr2.
      destruct (Z.ltb_spec (expireAt s) (clock k)); [lia|]. cbn [andb].
      destruct (Z.ltb_spec (expireAt s) (clock (S k))); [lia|].
      destruct (Z.ltb_spec (expireAt x) (clock (S (S k)))); [lia|]. cbn [orb].
      destruct (Qle_bool _ _) eqn:Hle; cbn [fst]; intros q2 s2 [= <- <-].
      * apply Qle_bool_iff in Hle.
        split; [apply lookup_snoc_Some; by left|]. split; [done|].
        intros q' y [Hy|[-> ->]]%lookup_snoc_Some Hhy; [by apply Hall|].
        split; [done|lia].
      * assert (Value (getter (model s)) < Value (getter (model x)))%Q as Hlt.
        { apply Qnot_le_lt. intros Hc%Qle_bool_iff. congruence. }
        split; [apply lookup_snoc_Some; by right|]. split; [done|].
        intros q' y [Hy|[-> ->]]%lookup_snoc_Some Hhy.
        -- destruct (Hall q' y Hy Hhy) as [Hxy _]. split; [lra|]. intros _. lra.
        -- split; [lra|lia].
    + rewrite pick_first by done. cbn [fst]. intros q2 s2 [= <- <-].
      split; [apply lookup_snoc_Some; by right|]. split; [done|].
      intros q' y [Hy|[-> ->]]%lookup_snoc_Some Hhy; [|split; [lra|lia]].
      rewrite (Hh y) in Hhy; [done|]. apply list_elem_of_lookup. eauto.
  - rewrite pick_unhealthy by done. cbn [fst]. intros q x ->.
    destruct (Hmin q x eq_refl) as (Hqx & Hhx & Hall).
    split; [apply lookup_snoc_Some; by left|]. split; [done|].
    intros q' y [Hy|[-> ->]]%lookup_snoc_Some Hhy; [by apply Hall | congruence].
Qed.

Lemma scan_expired_first ss :
  expired_first k0 t0 ss (scan clock getter 0 ss None k0).1 (scan clock getter 0 ss None k0).2.
Proof.
  apply (scan_invariant (expired_first k0 t0) getter pick_expired_first ss [] None k0).
  split; [by intros ? ?%elem_of_nil|]. split; [done|].
  by intros (? & ?%elem_of_nil & _).
Qed.

Lemma scan_fastest_first ss :
  fastest_first getter k0 t1 ss (scan clock getter 0 ss None k0).1 (scan clock getter 0 ss None k0).2.
Proof.
  apply (scan_invariant (fastest_first getter k0 t1) getter pick_fastest_first ss [] None k0).
  split; [by intros ? ?%elem_of_nil|]. split; [done|]. done.
Qed.

End Cascade.

(** *** Successive warm-up calls *)

Lemma coldFrom_same_models getter p (l1 l2 : list ModelSchedule) :
  model <$> l1 = model <$> l2 →
  (λ t : ptr, (t.1, model t.2)) <$> coldFrom getter p l1 [] =
  (λ t : ptr, (t.1, model t.2)) <$> coldFrom getter p l2 [].
Proof.
  revert p l2. induction l1 as [|a l1 IH]; intros p [|b l2] Heq; try done.
  simpl in Heq. injection Heq as Hab Heq.
  rewrite !coldFrom_cons, !fmap_app, (IH (S p) l2 Heq).
  unfold is_cold. rewrite Hab. by destruct (_ && _); simpl; rewrite ?Hab.
Qed.

Lemma touched_models r c p s now :
  schedules r !! p = Some s →
  model <$> schedules (touched r c p s now) = model <$> schedules r.
Proof.
  intros Hp. simpl. rewrite list_fmap_insert. simpl.
  apply list_insert_id. by rewrite list_lookup_fmap, Hp.
Qed.

Lemma touched_cold_view r c p s now :
  schedules r !! p = Some s →
  cold_view (touched r c p s now) = cold_view r.
Proof.
  intros Hp. unfold cold_view, getColdModelSchedules.
  apply coldFrom_same_models. by apply touched_models.
Qed.

Lemma cold_view_lookup r i p m :
  cold_view r !! i = Some (p, m) ↔
  ∃ s, getColdModelSchedules r !! i = Some (p, s) ∧ model s = m.
Proof.
  unfold cold_view. rewrite list_lookup_fmap.
  destruct (getColdModelSchedules r !! i) as [[q s]|]; simpl.
  - split; [intros [= -> <-]; eauto | by intros (s' & [= -> <-] & <-)].
  - split; [done | by intros (? & ? & _)].
Qed.

Lemma uint32_add_l z i : uint32 (uint32 z + i) = uint32 (z + i).
Proof. unfold uint32. by rewrite Zplus_mod_idemp_l. Qed.

Lemma calls_round_robin n : ∀ r k i,
  getColdModelSchedules r ≠ [] →
  Z.of_nat (length (schedules r)) < 2 ^ 32 →
  (i < n)%nat →
  ∃ p m,
    cold_view r !! Z.to_nat (uint32 (warmupIdx r + Z.of_nat i)
                             mod Z.of_nat (length (getColdModelSchedules r)))
      = Some (p, m)
    ∧ (calls clock n r k).1.1 !! i = Some (Ok m).
Proof.
  induction n as [|n IH]; intros r k i Hne Hlen Hi; [lia|].
  destruct (Next_warm_up r k Hne Hlen) as (p & s & Hps & HN).
  assert (schedules r !! p = Some s) as Hp.
  { by apply list_elem_of_lookup_2, elem_of_cold in Hps as [? _]. }
  simpl. unfold bind. rewrite HN. cbn [fst snd].
  set (r' := touched r (uint32 (warmupIdx r + 1)) p s (clock k)).
  destruct (calls clock n r' (S k)) as [others k'] eqn:Hc.
  cbn [fst snd ret].
  destruct i as [|i].
  - exists p, (model s). rewrite Z.add_0_r. split; [|done].
    apply cold_view_lookup. eauto.
  - assert (cold_view r' = cold_view r) as Hview by by apply touched_cold_view.
    assert (length (getColdModelSchedules r') = length (getColdModelSchedules r)) as Hl.
    { apply (f_equal length) in Hview. unfold cold_view in Hview.
      by rewrite !length_fmap in Hview. }
    destruct (IH r' (S k) i) as (q & m & Hq & Hres).
    + intros Hnil. rewrite Hnil in Hl. by destruct (getColdModelSchedules r).
    + subst r'. simpl. by rewrite length_insert.
    + lia.
    + exists q, m. rewrite Hc in Hres. simpl in Hres. split; [|done].
      rewrite Hview, Hl in Hq. subst r'. simpl in Hq.
      rewrite uint32_add_l in Hq.
      by replace (warmupIdx r + Z.of_nat (S i)) with (warmupIdx r + 1 + Z.of_nat i) by lia.
Qed.

(** *** The properties of the specification *)

(** C4. [Next] reports [ErrNoHealthyModels] exactly when no configured
    model is healthy; when at least one model is healthy (and the
    schedules are fewer than 2^32, the range of the cursor arithmetic)
    it returns a healthy configured model and no error. *)
Theorem Next_no_healthy_models_iff r k :
  ((Next clock r k).1.1 = Err ErrNoHealthyModels ↔
   ∀ s, s ∈ schedules r → Healthy (model s) = false)
  ∧ (Z.of_nat (length (schedules r)) < 2 ^ 32 →
     (∃ s, s ∈ schedules r ∧ Healthy (model s) = true) →
     ∃ m, (Next clock r k).1.1 = Ok m ∧ Healthy m = true ∧
          ∃ s, s ∈ schedules r ∧ model s = m).
Proof.
  split.
  - destruct (decide (getColdModelSchedules r = [])) as [Hnil|Hne].
    + rewrite Next_latency_based by done. cbn zeta.
      pose proof (scan_holds_healthy (latencyGetter r) (schedules r) k) as Hh.
      destruct (scan clock (latencyGetter r) 0 (schedules r) None k).1 as [[p s]|];
        simpl.
      * destruct Hh as [Hp Hs]. split; [done|]. intros Hall.
        rewrite (Hall s) in Hs; [done|]. apply list_elem_of_lookup. eauto.
      * done.
    + split.
      * unfold Next. set (cold := getColdModelSchedules r) in *.
        assert (0 < length cold)%nat by (destruct cold; [done | simpl; lia]).
        destruct (Nat.ltb_spec 0 (length cold)); [|lia].
        destruct (_ =? 0); [done|]. by destruct (cold !! _).
      * intros Hall. destruct (getColdModelSchedules r) as [|[p s] l] eqn:E; [done|].
        assert ((p, s) ∈ getColdModelSchedules r) as Hin by (rewrite E; left).
        apply elem_of_cold in Hin as [Hp Hc%is_cold_healthy].
        rewrite (Hall s) in Hc; [done|]. apply list_elem_of_lookup. eauto.
  - intros Hlen (s0 & Hin0 & Hh0).
    assert (∃ m, (Next clock r k).1.1 = Ok m) as [m Hm].
    { destruct (decide (getColdModelSchedules r = [])) as [Hnil|Hne].
      - rewrite Next_latency_based by done. cbn zeta.
        pose proof (scan_holds_healthy (latencyGetter r) (schedules r) k) as Hh.
        destruct (scan clock (latencyGetter r) 0 (schedules r) None k).1 as [[p s]|];
          simpl; [eauto|].
        rewrite (Hh s0 Hin0) in Hh0. done.
      - destruct (Next_warm_up r k Hne Hlen) as (p & s & _ & ->). simpl. eauto. }
    exists m. split; [done|].
    destruct (Next_Ok_healthy r k m Hm) as (p & s & Hp & <- & Hh).
    split; [done|]. exists s. split; [|done]. apply list_elem_of_lookup. eauto.
Qed.

(** C1, as the code has it. [Iterator] hands out the router itself and
    [Next] keeps no record of the models it has yielded: a call yields
    the model of a schedule that is healthy at that call. A model
    yielded earlier in a request is therefore left out by a later call
    when it is unhealthy by then. *)
Theorem Next_yields_healthy_only r k :
  Iterator r = r
  ∧ (∀ m, (Next clock (Iterator r) k).1.1 = Ok m →
       Healthy m = true ∧ ∃ p s, schedules r !! p = Some s ∧ model s = m)
  ∧ (∀ id, (∀ s, s ∈ schedules r → ID (model s) = id → Healthy (model s) = false) →
       ∀ m, (Next clock (Iterator r) k).1.1 = Ok m → ID m ≠ id).
Proof.
  split; [done|]. unfold Iterator. split.
  - intros m Hm. destruct (Next_Ok_healthy r k m Hm) as (p & s & Hp & Hs & Hh). eauto.
  - intros id Hdown m Hm Hid.
    destruct (Next_Ok_healthy r k m Hm) as (p & s & Hp & <- & Hh).
    rewrite (Hdown s) in Hh; [done| |done]. apply list_elem_of_lookup. eauto.
Qed.

(** C2. With no cold model, [Next] follows the priority cascade. The
    readings of the clock during the call lie between [t0] and [t1]
    (both are the time of the call when the clock stands still
    meanwhile); a schedule has expired when its [expireAt] is before
    [t0], and has not when it is [t1] or later. If some healthy model's
    schedule has expired, the model returned has an expired schedule,
    the earliest [expireAt] of all, whatever the latency values are. If
    no healthy model's schedule has expired, the model returned has the
    smallest latency value, the first such in configured order. The
    schedule of the model returned is touched. *)
Theorem Next_priority_cascade r k t0 t1 :
  getColdModelSchedules r = [] →
  (∀ j, (k ≤ j)%nat → t0 ≤ clock j ≤ t1) →
  (∃ s', s' ∈ schedules r ∧ Healthy (model s') = true) →
  ∃ q s k',
    Next clock r k = (Ok (model s), touched r (warmupIdx r) q s (clock k'), S k')
    ∧ (k ≤ k')%nat
    ∧ ((∃ s', s' ∈ schedules r ∧ Healthy (model s') = true ∧ expireAt s' < t0) →
         expireAt s < t0 ∧ earliest_expiry (schedules r) q s)
    ∧ ((∀ s', s' ∈ schedules r → Healthy (model s') = true → t1 ≤ expireAt s') →
         least_latency (latencyGetter r) (schedules r) q s).
Proof.
  intros Hnil Hclk (s0 & Hin0 & Hh0).
  rewrite Next_latency_based by done. cbn zeta.
  pose proof (scan_expired_first (latencyGetter r) k t0 t1 Hclk (schedules r))
    as (Hh & Hk & Hexp).
  pose proof (scan_fastest_first (latencyGetter r) k t0 t1 Hclk (schedules r))
    as (_ & _ & Hfast).
  destruct (scan clock (latencyGetter r) 0 (schedules r) None k) as [[[q s]|] k'];
    cbn [fst snd] in *.
  - exists q, s, k'. split; [done|]. split; [done|]. split.
    + intros Hsome. destruct (Hexp Hsome) as (q1 & s1 & [= <- <-] & Hmin).
      split; [|done]. destruct Hsome as (s' & [p' Hp']%list_elem_of_lookup & Hh' & Hlt).
      destruct Hmin as (_ & _ & Hall). destruct (Hall p' s' Hp' Hh'). lia.
    + intros Hnone. by apply Hfast.
  - rewrite (Hh s0 Hin0) in Hh0. done.
Qed.

(** C3. When some model is cold, [Next] returns
    [cold[warmupIdx mod |cold|]], adds one to the cursor (an
    [atomic.Uint32]: the sum is taken in 32 bits) and touches the
    schedule of the model returned, whatever the latency values are.
    Over successive calls the cold models are probed in turn: call
    number [i] returns [cold[(warmupIdx + i) mod |cold|]], the cursor
    being read in 32 bits. *)
Theorem Next_warm_up_round_robin r k :
  getColdModelSchedules r ≠ [] →
  Z.of_nat (length (schedules r)) < 2 ^ 32 →
  0 ≤ warmupIdx r < 2 ^ 32 →
  let cold := getColdModelSchedules r in
  (∃ p s,
      cold !! Z.to_nat (warmupIdx r mod Z.of_nat (length cold)) = Some (p, s)
      ∧ schedules r !! p = Some s
      ∧ Next clock r k
        = (Ok (model s), touched r (uint32 (warmupIdx r + 1)) p s (clock k), S k)
      ∧ (warmupIdx r + 1 < 2 ^ 32 → uint32 (warmupIdx r + 1) = warmupIdx r + 1))
  ∧ (∀ n i, (i < n)%nat →
       ∃ p s,
         cold !! Z.to_nat (uint32 (warmupIdx r + Z.of_nat i) mod Z.of_nat (length cold))
           = Some (p, s)
         ∧ (calls clock n r k).1.1 !! i = Some (Ok (model s))
         ∧ (warmupIdx r + Z.of_nat i < 2 ^ 32 →
            uint32 (warmupIdx r + Z.of_nat i) = warmupIdx r + Z.of_nat i)).
Proof.
  intros Hne Hlen Hw cold. split.
  - destruct (Next_warm_up r k Hne Hlen) as (p & s & Hps & HN).
    rewrite uint32_small in Hps by done.
    exists p, s. split; [done|]. split.
    { by apply list_elem_of_lookup_2, elem_of_cold in Hps as [? _]. }
    split; [done|]. intros Hlt. apply uint32_small. lia.
  - intros n i Hi.
    destruct (calls_round_robin n r k i Hne Hlen Hi) as (p & m & Hpm & Hres).
    apply cold_view_lookup in Hpm as (s & Hs & <-).
    exists p, s. split; [done|]. split; [done|].
    intros Hlt. apply uint32_small. lia.
Qed.

(** C6. For a schedule whose model has a positive update interval,
    [Update] sets [expireAt] to the reading of the clock plus that
    interval, which is strictly later than the reading; [Expired] is
    false at every reading up to the new [expireAt], so immediately
    after the touch. *)
Theorem Update_expires_in_future s k :
  0 < LatencyUpdateInterval (model s) →
  let s' := (Update clock s k).1 in
  expireAt s' = clock k + LatencyUpdateInterval (model s)
  ∧ clock k < expireAt s'
  ∧ model s' = model s
  ∧ (Update clock s k).2 = S k
  ∧ (∀ j, clock j ≤ expireAt s' → (Expired clock s' j).1 = false)
  ∧ (clock (S k) = clock k → (Expired clock s' (S k)).1 = false).
Proof.
  intros Hpos. cbn. unfold Add, After.
  repeat split; intros; lia.
Qed.

End Facts.

(** *** Cold start *)

Section ColdStart.
Import Router.

Variable clock : nat -> Time.
Variables id1 id2 id3 : string.
Variables i1 i2 i3 : Duration.
Variables d1 d2 d3 : Q.
Hypothesis distinct12 : id1 ≠ id2.
Hypothesis distinct13 : id1 ≠ id3.
Hypothesis distinct23 : id2 ≠ id3.

Abbreviation three_models := (three_models id1 id2 id3 i1 i2 i3 d1 d2 d3).

Lemma same_id (id : string) : String.eqb id id = true.
Proof. apply String.eqb_refl. Qed.

Lemma other_id (a b : string) : a ≠ b → String.eqb a b = false ∧ String.eqb b a = false.
Proof. intros H. split; apply String.eqb_neq; congruence. Qed.

Lemma served_requests_cons e rest r k :
  served_requests clock (e :: rest) r k =
  let first := served_request clock e r k in
  let others := served_requests clock rest first.1.2 first.2 in
  (first.1.1 :: others.1.1, others.1.2, others.2).
Proof.
  simpl. unfold bind, ret.
  destruct (served_request clock e r k) as [[res r'] k']. simpl.
  by destruct (served_requests clock rest r' k') as [[l r''] k''].
Qed.

Ltac settle_ids :=
  rewrite ?same_id, ?(proj1 (other_id _ _ distinct12)),
    ?(proj2 (other_id _ _ distinct12)), ?(proj1 (other_id _ _ distinct13)),
    ?(proj2 (other_id _ _ distinct13)), ?(proj1 (other_id _ _ distinct23)),
    ?(proj2 (other_id _ _ distinct23)).

(** Runs the first of the pending requests. *)
Ltac serve_one :=
  rewrite served_requests_cons; cbv zeta;
  match goal with
  | |- context [served_request clock ?e ?r ?k] =>
      let H := fresh in
      eassert (served_request clock e r k = _) as H;
      [ lazy -[String.eqb Add Qplus Qmult Qminus]; settle_ids;
        lazy -[String.eqb Add Qplus Qmult Qminus]; reflexivity
      | rewrite !H; clear H; cbn [fst snd] ]
  end.

Ltac build_router :=
  unfold cold_start, bind;
  match goal with
  | |- context [NewLeastLatencyRouting clock ?g ?ms ?k] =>
      let H := fresh in
      eassert (NewLeastLatencyRouting clock g ms k = _) as H;
      [ lazy -[String.eqb Add Qplus Qmult Qminus]; reflexivity
      | rewrite !H; clear H ]
  end.

Lemma cold_start_threshold_one k e1 e2 e3 :
  let after := cold_start clock (three_models 1) [e1; e2; e3] k in
  yielded_id <$> after.1.1 = [Some id1; Some id3; Some id2]
  ∧ getColdModelSchedules after.1.2 = [].
Proof. cbv zeta. build_router. serve_one. serve_one. serve_one. done. Qed.

Lemma cold_start_threshold_more w k e1 e2 e3 e4 :
  (2 ≤ w)%nat →
  getColdModelSchedules (cold_start clock (three_models w) [e1; e2; e3] k).1.2 ≠ []
  ∧ yielded_id <$> (cold_start clock (three_models w) [e1; e2; e3; e4] k).1.1
    = [Some id1; Some id2; Some id3; Some id1].
Proof.
  intros Hw. destruct w as [|[|w]]; [lia|lia|]. split.
  - build_router. serve_one. serve_one. serve_one. done.
  - build_router. serve_one. serve_one. serve_one. serve_one. done.
Qed.

(** C5, as the code has it. A router is built over three healthy
    models with distinct ids that have served nothing, and every call
    succeeds and has its latency observed before the next request.
    With warm-up threshold 1 the first three requests visit each model
    once, in the order first, third, second, and no model is cold when
    the fourth request arrives, which is therefore selected by latency.
    With a warm-up threshold of 2 or more the first three requests
    visit the models in configured order, all three are still cold
    afterwards, and the fourth request is a warm-up probe of the first
    model. *)
Theorem cold_start_three_models k e1 e2 e3 e4 :
  (yielded_id <$> (cold_start clock (three_models 1) [e1; e2; e3] k).1.1
     = [Some id1; Some id3; Some id2]
   ∧ getColdModelSchedules (cold_start clock (three_models 1) [e1; e2; e3] k).1.2 = [])
  ∧ (∀ w, (2 ≤ w)%nat →
       yielded_id <$> (cold_start clock (three_models w) [e1; e2; e3; e4] k).1.1
         = [Some id1; Some id2; Some id3; Some id1]
       ∧ getColdModelSchedules (cold_start clock (three_models w) [e1; e2; e3] k).1.2
         ≠ []).
Proof.
  split; [apply cold_start_threshold_one|].
  intros w Hw. destruct (cold_start_threshold_more w k e1 e2 e3 e4 Hw). done.
Qed.

End ColdStart.

(** *** The properties at sample routers *)

Import Router Samples.

Lemma Next_no_healthy_models_iff_witness :
  (Next (frozen 100) down 0%nat).1.1 = Err ErrNoHealthyModels
  ∧ ∃ m, (Next (frozen 100) steady 0%nat).1.1 = Ok m ∧ Healthy m = true ∧
         ∃ s, s ∈ schedules steady ∧ model s = m.
Proof.
  split.
  - apply (proj1 (Next_no_healthy_models_iff (frozen 100) down 0)).
    intros s ->%list_elem_of_singleton. reflexivity.
  - apply (proj2 (Next_no_healthy_models_iff (frozen 100) steady 0)).
    + vm_compute. reflexivity.
    + exists {| model := warm "first" 4; expireAt := 130 |}. split; [left | reflexivity].
Defined.

(** C1 fails on the code. Two calls of [Next] on the iterator of one
    request yield the same model twice when that model is healthy at
    both calls: because nothing changed its health in between, or because
    it was marked unhealthy after the failed call and has recovered by
    the time of the second call. *)
Lemma iterator_yields_model_twice :
  (calls (frozen 100) 2 (Iterator single) 0%nat).1.1
  = [Ok (warm "first" 3); Ok (warm "first" 3)]
  ∧ (let first := Next (frozen 100) (Iterator single) 0%nat in
     let failed := update_model "first" (set_Healthy false) first.1.2 in
     let recovered := update_model "first" (set_Healthy true) failed in
     first.1.1 = Ok (warm "first" 3)
     ∧ (Next (frozen 100) failed first.2).1.1 = Err ErrNoHealthyModels
     ∧ (Next (frozen 100) recovered first.2).1.1 = Ok (warm "first" 3)).
Proof. vm_compute. done. Qed.

Lemma Next_yields_healthy_only_witness :
  Healthy (warm "third" 3) = true ∧
  ∃ p s, schedules stale !! p = Some s ∧ model s = warm "third" 3.
Proof.
  apply (proj1 (proj2 (Next_yields_healthy_only (frozen 100) stale 0%nat))).
  vm_compute. reflexivity.
Defined.

Lemma Next_priority_cascade_witness :
  (∃ q s k',
      Next (frozen 100) stale 0%nat
      = (Ok (model s), touched stale (warmupIdx stale) q s (frozen 100 k'), S k')
      ∧ (0 ≤ k')%nat
      ∧ ((∃ s', s' ∈ schedules stale ∧ Healthy (model s') = true ∧ expireAt s' < 100) →
           expireAt s < 100 ∧ earliest_expiry (schedules stale) q s)
      ∧ ((∀ s', s' ∈ schedules stale → Healthy (model s') = true → 100 ≤ expireAt s') →
           least_latency (latencyGetter stale) (schedules stale) q s)).
Proof.
  apply (Next_priority_cascade (frozen 100) stale 0 100 100).
  - vm_compute. reflexivity.
  - intros j _. unfold frozen. lia.
  - exists {| model := warm "first" 1; expireAt := 130 |}. split; [left | reflexivity].
Defined.

Lemma Next_warm_up_round_robin_witness :
  let cold := getColdModelSchedules warming in
  (∃ p s,
      cold !! Z.to_nat (warmupIdx warming mod Z.of_nat (length cold)) = Some (p, s)
      ∧ schedules warming !! p = Some s
      ∧ Next (frozen 100) warming 0%nat
        = (Ok (model s), touched warming (uint32 (warmupIdx warming + 1)) p s
                           (frozen 100 0%nat), 1%nat)
      ∧ (warmupIdx warming + 1 < 2 ^ 32 →
         uint32 (warmupIdx warming + 1) = warmupIdx warming + 1))
  ∧ (∀ n i, (i < n)%nat →
       ∃ p s,
         cold !! Z.to_nat (uint32 (warmupIdx warming + Z.of_nat i)
                           mod Z.of_nat (length cold))
           = Some (p, s)
         ∧ (calls (frozen 100) n warming 0%nat).1.1 !! i = Some (Ok (model s))
         ∧ (warmupIdx warming + Z.of_nat i < 2 ^ 32 →
            uint32 (warmupIdx warming + Z.of_nat i) = warmupIdx warming + Z.of_nat i)).
Proof.
  apply (Next_warm_up_round_robin (frozen 100) warming 0).
  - vm_compute. congruence.
  - vm_compute. reflexivity.
  - vm_compute. split; congruence.
Defined.

(** The sample routers, run. *)
Example Next_stale :
  (Next (frozen 100) stale 0%nat).1.1 = Ok (warm "third" 3).
Proof. vm_compute. reflexivity. Qed.

Example Next_steady :
  (Next (frozen 100) steady 0%nat).1.1 = Ok (warm "second" 2).
Proof. vm_compute. reflexivity. Qed.

Example calls_warming :
  yielded_id <$> (calls (frozen 100) 4 warming 0%nat).1.1
  = [Some "first"; Some "third"; Some "first"; Some "third"].
Proof. vm_compute. reflexivity. Qed.

Lemma Update_expires_in_future_witness :
  let s := {| model := warm "first" 3; expireAt := 0 |} in
  let s' := (Update ticking s 4%nat).1 in
  expireAt s' = 70 ∧ 40 < expireAt s' ∧ (Expired ticking s' 5%nat).1 = false.
Proof.
  pose proof (Update_expires_in_future ticking
                {| model := warm "first" 3; expireAt := 0 |} 4%nat) as H.
  destruct H as (H1 & H2 & _ & _ & H3 & _); [vm_compute; reflexivity|].
  split; [exact H1|]. split; [exact H2|]. apply H3. vm_compute. congruence.
Defined.

(** C5 fails on the code. With warm-up threshold 1 the second request
    goes to the third model; with threshold 2 the first three requests
    follow the configured order, but the fourth is one more warm-up probe. *)
Lemma cold_start_not_in_configured_order :
  yielded_id <$>
    (cold_start ticking
       [fresh_model "first" 30 1 (6 # 100); fresh_model "second" 30 1 (6 # 100);
        fresh_model "third" 30 1 (6 # 100)] [1; 2; 3]%Q 0%nat).1.1
  = [Some "first"; Some "third"; Some "second"]
  ∧ yielded_id <$>
      (cold_start ticking
         [fresh_model "first" 30 2 (6 # 100); fresh_model "second" 30 2 (6 # 100);
          fresh_model "third" 30 2 (6 # 100)] [1; 2; 3; 4]%Q 0%nat).1.1
    = [Some "first"; Some "second"; Some "third"; Some "first"]
  ∧ length (getColdModelSchedules
              (cold_start ticking
                 [fresh_model "first" 30 2 (6 # 100); fresh_model "second" 30 2 (6 # 100);
                  fresh_model "third" 30 2 (6 # 100)] [1; 2; 3]%Q 0%nat).1.2) = 3%nat.
Proof. vm_compute. done. Qed.

Lemma cold_start_three_models_witness :
  yielded_id <$>
    (cold_start ticking (three_models "first" "second" "third" 30 30 30
                           (6 # 100) (6 # 100) (6 # 100) 3) [1; 2; 3; 4]%Q 0%nat).1.1
  = [Some "first"; Some "second"; Some "third"; Some "first"].
Proof.
  refine (proj1 (proj2 (cold_start_three_models ticking "first" "second" "third"
                          30 30 30 (6 # 100) (6 # 100) (6 # 100) _ _ _ 0%nat
                          1%Q 2%Q 3%Q 4%Q)
                   3%nat _)); [done | done | done | lia].
Defined.

End RoutingFacts.

(** * Properties of the Cohere client *)

Module CohereFacts.
Import Http Cohere.

Lemma appendHistory_map history messages :
  appendHistory history messages = history ++ (to_cohere <$> messages).
Proof.
  revert history. induction messages as [|m ms IH]; intros history; simpl.
  - by rewrite app_nil_r.
  - rewrite IH, <- app_assoc. done.
Qed.

(** C10. For a client whose template was filled from its config,
    [createRequestSchema] gives a request whose [Message] is the content
    of the request's message, whose [ChatHistory] has the entries of
    [message_history], in their order and number, each with its role and
    content and without its name, and whose other fields are the
    template's, that is the config's. *)
Theorem createRequestSchema_copies c request :
  Client.chatRequestTemplate c = NewChatRequestFromConfig (Client.config c) →
  let built := createRequestSchema c request in
  let template := Client.chatRequestTemplate c in
  let history := Schemas.ChatRequest.MessageHistory request in
  ChatRequest.Message built
    = Schemas.ChatMessage.Content (Schemas.ChatRequest.Message request)
  ∧ ChatRequest.ChatHistory built = to_cohere <$> history
  ∧ length (ChatRequest.ChatHistory built) = length history
  ∧ (∀ i m, history !! i = Some m →
       ∃ h, ChatRequest.ChatHistory built !! i = Some h
            ∧ ChatMessage.Role h = Schemas.ChatMessage.Role m
            ∧ ChatMessage.Content h = Schemas.ChatMessage.Content m)
  ∧ ChatRequest.Model built = ChatRequest.Model template
  ∧ ChatRequest.Temperature built = ChatRequest.Temperature template
  ∧ ChatRequest.Preamble built = ChatRequest.Preamble template
  ∧ ChatRequest.PromptTruncation built = ChatRequest.PromptTruncation template
  ∧ ChatRequest.Connectors built = ChatRequest.Connectors template
  ∧ ChatRequest.SearchQueriesOnly built = ChatRequest.SearchQueriesOnly template
  ∧ ChatRequest.Stream built = ChatRequest.Stream template
  ∧ ChatRequest.Model built = Config.Model (Client.config c)
  ∧ ChatRequest.Stream built = false.
Proof.
  intros Htemplate built template history.
  assert (ChatRequest.ChatHistory built = to_cohere <$> history) as Hhist.
  { subst built history. unfold createRequestSchema.
    destruct (Schemas.ChatRequest.MessageHistory request) as [|m ms] eqn:E.
    - simpl. by rewrite Htemplate.
    - cbn [length Nat.ltb Nat.leb set_ChatHistory ChatRequest.ChatHistory].
      by rewrite appendHistory_map. }
  split.
  { subst built. unfold createRequestSchema. by destruct (_ <? _)%nat. }
  split; [done|]. split; [by rewrite Hhist, length_fmap|]. split.
  { intros i m Hi. exists (to_cohere m). rewrite Hhist, list_lookup_fmap, Hi. done. }
  subst built template. unfold createRequestSchema. rewrite Htemplate.
  by destruct (_ <? _)%nat.
Qed.

Section WithEnvironment.

Variable providerName : string.
Variable json_Marshal : ChatRequest.t -> outcome bytes.
Variable json_Unmarshal : bytes -> outcome ChatCompletion.t.
Variable http_NewRequestWithContext : string -> string -> bytes -> outcome Request.t.
Variable unix_now : Z.

Abbreviation doChatRequest :=
  (doChatRequest providerName json_Marshal json_Unmarshal
     http_NewRequestWithContext unix_now).
Abbreviation Chat :=
  (Chat providerName json_Marshal json_Unmarshal http_NewRequestWithContext unix_now).

(** What [doChatRequest] does once the provider's response is there. *)
Lemma doChatRequest_received c payload rawPayload req resp :
  json_Marshal payload = Done rawPayload →
  http_NewRequestWithContext MethodPost (Client.chatURL c) rawPayload = Done req →
  Client.httpClient c (with_headers c req) = Done resp →
  Response.StatusCode resp ≠ StatusOK →
  doChatRequest c payload = Err (Client.errMapper c resp).
Proof.
  intros Hm Hn Hd Hs. unfold Cohere.doChatRequest, with_headers in *.
  rewrite Hm. simpl. rewrite Hn. simpl. rewrite Hd. simpl.
  destruct (Z.eqb_spec (Response.StatusCode resp) StatusOK); done.
Qed.




(** What a successful [doChatRequest] returns. *)
Lemma doChatRequest_Ok c payload response :
  doChatRequest c payload = Ok response →
  ∃ completion,
    response =
    {| Schemas.ChatResponse.ID := ChatCompletion.ResponseID completion;
       Schemas.ChatResponse.Created := unix_now;
       Schemas.ChatResponse.Provider := providerName;
       Schemas.ChatResponse.ModelName := Config.Model (Client.config c);
       Schemas.ChatResponse.Cached := false;
       Schemas.ChatResponse.ModelResponse :=
         {| Schemas.ModelResponse.SystemID :=
              {[ "generationId" := ChatCompletion.GenerationID completion;
                 "responseId" := ChatCompletion.ResponseID completion ]};
            Schemas.ModelResponse.Message :=
              {| Schemas.ChatMessage.Role := "model";
                 Schemas.ChatMessage.Content := ChatCompletion.Text completion;
                 Schemas.ChatMessage.Name := "" |};
            Schemas.ModelResponse.TokenUsage :=
              {| Schemas.TokenUsage.PromptTokens :=
                   TokenCount.PromptTokens (ChatCompletion.TokenCount completion);
                 Schemas.TokenUsage.ResponseTokens :=
                   TokenCount.ResponseTokens (ChatCompletion.TokenCount completion);
                 Schemas.TokenUsage.TotalTokens :=
                   TokenCount.TotalTokens (ChatCompletion.TokenCount completion) |}
         |}
    |}.
Proof.
  unfold Cohere.doChatRequest.
  destruct (json_Marshal payload) as [rawPayload|]; simpl; [|done].
  destruct (http_NewRequestWithContext _ _ _) as [req|]; simpl; [|done].
  destruct (Client.httpClient c _) as [resp|]; simpl; [|done].
  destruct (Z.eqb_spec (Response.StatusCode resp) StatusOK); simpl; [|done].
  destruct (Response.Body resp); simpl; [|done].
  destruct (json_Unmarshal _) as [completion|]; simpl; [|done].
  intros [= <-]. by exists completion.
Qed.

Lemma Chat_Ok c request response :
  Chat c request = Ok response →
  doChatRequest c (createRequestSchema c request) = Ok response
  ∧ Schemas.ChatMessage.Content
      (Schemas.ModelResponse.Message (Schemas.ChatResponse.ModelResponse response)) ≠ "".
Proof.
  unfold Cohere.Chat.
  destruct (Cohere.doChatRequest _ _ _ _ _ c _) as [chatResponse| |]; [|done|done].
  destruct (Nat.eqb_spec (String.length
    (Schemas.ChatMessage.Content (Schemas.ModelResponse.Message
       (Schemas.ChatResponse.ModelResponse chatResponse)))) 0) as [Hz|Hnz]; [done|].
  intros [= <-]. split; [done|]. intros Hempty. by rewrite Hempty in Hnz.
Qed.

(** C9. The response of a successful chat call has the role "model"
    and the empty name in its message, the configured model id as
    [ModelName], the provider tag of the package as [Provider],
    [Cached] false, and [Created] read from the gateway's clock. *)
Theorem Chat_response_is_normalized c request response :
  Chat c request = Ok response →
  let message := Schemas.ModelResponse.Message
                   (Schemas.ChatResponse.ModelResponse response) in
  Schemas.ChatMessage.Role message = "model"
  ∧ Schemas.ChatMessage.Name message = ""
  ∧ Schemas.ChatResponse.ModelName response = Config.Model (Client.config c)
  ∧ Schemas.ChatResponse.Provider response = providerName
  ∧ Schemas.ChatResponse.Cached response = false
  ∧ Schemas.ChatResponse.Created response = unix_now.
Proof.
  intros [Hdo _]%Chat_Ok.
  apply doChatRequest_Ok in Hdo as [completion ->]. done.
Qed.

(** C8. When the call completes with a response whose message content
    is empty, [Chat] returns no response and [ErrEmptyResponse]; the
    bookkeeping the router does for that reply observes no latency,
    however the classifier ranks the error. *)
Theorem Chat_empty_response c request response :
  doChatRequest c (createRequestSchema c request) = Ok response →
  Schemas.ChatMessage.Content
    (Schemas.ModelResponse.Message (Schemas.ChatResponse.ModelResponse response)) = "" →
  Chat c request = Err ErrEmptyResponse
  ∧ ∀ classify elapsed m,
      Providers.ChatLatency (Router.record_attempt classify elapsed (Chat c request) m)
      = Providers.ChatLatency m.
Proof.
  intros Hdo Hempty.
  assert (Chat c request = Err ErrEmptyResponse) as ->.
  { unfold Cohere.Chat. rewrite Hdo, Hempty. done. }
  split; [done|]. intros classify elapsed m. simpl. by destruct (classify _).
Qed.

End WithEnvironment.

(** *** The properties at sample clients *)

Import Samples.

Lemma createRequestSchema_copies_witness :
  let built := createRequestSchema (client (Done (answer 200))) question in
  ChatRequest.Message built = "and now?"
  ∧ ChatRequest.ChatHistory built
    = [ {| ChatMessage.Role := "user"; ChatMessage.Content := "hello" |};
        {| ChatMessage.Role := "user"; ChatMessage.Content := "tell me" |} ]
  ∧ ChatRequest.Model built = "command-r".
Proof.
  pose proof (createRequestSchema_copies (client (Done (answer 200))) question eq_refl)
    as (H1 & H2 & _ & _ & _ & _ & _ & _ & _ & _ & _ & H3 & _).
  split; [exact H1|]. split; [exact H2|exact H3].
Defined.


Lemma Chat_response_is_normalized_witness :
  match Chat "cohere" marshal (unmarshal (completion "fine")) new_request 1700000000
          (client (Done (answer 200))) question with
  | Ok response =>
      let message := Schemas.ModelResponse.Message
                       (Schemas.ChatResponse.ModelResponse response) in
      Schemas.ChatMessage.Role message = "model"
      ∧ Schemas.ChatMessage.Name message = ""
      ∧ Schemas.ChatResponse.ModelName response = "command-r"
      ∧ Schemas.ChatResponse.Provider response = "cohere"
      ∧ Schemas.ChatResponse.Cached response = false
      ∧ Schemas.ChatResponse.Created response = 1700000000
  | _ => False
  end.
Proof.
  destruct (Chat "cohere" marshal (unmarshal (completion "fine")) new_request 1700000000
              (client (Done (answer 200))) question) as [response| |] eqn:E.
  - exact (Chat_response_is_normalized "cohere" marshal (unmarshal (completion "fine"))
             new_request 1700000000 (client (Done (answer 200))) question response E).
  - vm_compute in E. discriminate E.
  - vm_compute in E. discriminate E.
Defined.

Lemma Chat_empty_response_witness :
  Chat "cohere" marshal (unmarshal (completion "")) new_request 1700000000
    (client (Done (answer 200))) question = Err ErrEmptyResponse
  ∧ ∀ classify elapsed m,
      Providers.ChatLatency
        (Router.record_attempt classify elapsed
           (Chat "cohere" marshal (unmarshal (completion "")) new_request 1700000000
              (client (Done (answer 200))) question) m)
      = Providers.ChatLatency m.
Proof.
  eapply (Chat_empty_response "cohere" marshal (unmarshal (completion "")) new_request
            1700000000 (client (Done (answer 200))) question).
  - vm_compute. reflexivity.
  - reflexivity.
Defined.

End CohereFacts.

(** * Further properties of the least-latency router *)

Module RoutingExtras.
Import Latency Providers Routing Expiry RoutingFacts.

Section Extras.

Variable clock : nat -> Time.

(** *** Construction *)

Lemma mapM_NewSchedule models : ∀ k,
  mapM (NewSchedule clock) models k =
  (imap (λ i m, scheduled (clock (k + i)%nat) m) models, (k + length models)%nat).
Proof.
  induction models as [|m ms IH]; intros k; simpl.
  - by rewrite Nat.add_0_r.
  - unfold bind at 1. unfold NewSchedule at 1, Update, bind, time_Now, ret. simpl.
    rewrite IH. unfold scheduled, Add. simpl. rewrite Nat.add_0_r.
    f_equal; [|lia]. f_equal. apply imap_ext. intros i x _. simpl.
    by replace (k + S i)%nat with (S (k + i)) by lia.
Qed.

Lemma NewLeastLatencyRouting_run getter models k :
  NewLeastLatencyRouting clock getter models k =
  ({| latencyGetter := getter; warmupIdx := 0;
      schedules := imap (λ i m, scheduled (clock (k + i)%nat) m) models |},
   (k + length models)%nat).
Proof. unfold NewLeastLatencyRouting, bind. by rewrite mapM_NewSchedule. Qed.

(** X1. [NewLeastLatencyRouting] makes one schedule per model, in the order
    of [models]; the schedule of the model at position [i] expires one
    update interval after the reading taken for it, which is reading
    number [i] of the construction. The cursor starts at 0. *)
Theorem NewLeastLatencyRouting_schedules getter models k :
  let built := NewLeastLatencyRouting clock getter models k in
  model <$> schedules built.1 = models
  ∧ (∀ i m, models !! i = Some m →
       schedules built.1 !! i
       = Some {| model := m;
                 expireAt := clock (k + i)%nat + LatencyUpdateInterval m |})
  ∧ warmupIdx built.1 = 0
  ∧ latencyGetter built.1 = getter
  ∧ built.2 = (k + length models)%nat.
Proof.
  rewrite NewLeastLatencyRouting_run. cbn.
  split; [|split; [|done]].
  - apply list_eq. intros i. rewrite list_lookup_fmap, list_lookup_imap.
    by destruct (models !! i).
  - intros i m Hi. by rewrite list_lookup_imap, Hi.
Qed.

(** *** What a call changes *)

Lemma touched_frame r c p s now :
  schedules r !! p = Some s →
  latencyGetter (touched r c p s now) = latencyGetter r
  ∧ model <$> schedules (touched r c p s now) = model <$> schedules r
  ∧ ∀ q, q ≠ p → schedules (touched r c p s now) !! q = schedules r !! q.
Proof.
  intros Hp. split; [done|]. split; [by apply touched_models|].
  intros q Hq. simpl. by rewrite list_lookup_insert_ne.
Qed.

(** X3. A call of [Next] never adds, removes, reorders or replaces a model,
    and keeps the latency getter. When it returns a model, the one
    schedule it has changed is the schedule of that model, whose
    [expireAt] is now a reading of the clock plus the model's update
    interval; the cursor has moved (by one, in 32 bits) exactly when
    the call was a warm-up call. When it returns the error, the router
    is as it was. *)
Theorem Next_touches_what_it_returns r k :
  let after := Next clock r k in
  latencyGetter after.1.2 = latencyGetter r
  ∧ model <$> schedules after.1.2 = model <$> schedules r
  ∧ match after.1.1 with
    | Ok m =>
        ∃ p s k',
          schedules r !! p = Some s ∧ model s = m ∧ (k ≤ k')%nat
          ∧ after.2 = S k'
          ∧ after.1.2
            = touched r (if decide (getColdModelSchedules r = [])
                         then warmupIdx r else uint32 (warmupIdx r + 1))
                p s (clock k')
    | Err e => e = ErrNoHealthyModels ∧ after.1.2 = r
    | Panic => schedules after.1.2 = schedules r
    end.
Proof.
  cbv zeta. destruct (decide (getColdModelSchedules r = [])) as [Hnil|Hne].
  - rewrite Next_latency_based by done. cbv zeta.
    pose proof (scan_holds_healthy clock (latencyGetter r) (schedules r) k) as Hh.
    pose proof (scan_ticks clock (latencyGetter r) (schedules r) 0 None k) as Hk.
    destruct (scan clock (latencyGetter r) 0 (schedules r) None k) as [[[p s]|] k'];
      cbn [fst snd] in *.
    + destruct Hh as [Hp Hs].
      destruct (touched_frame r (warmupIdx r) p s (clock k') Hp) as (? & ? & _).
      split; [done|]. split; [done|]. exists p, s, k'. done.
    + done.
  - unfold Next. set (cold := getColdModelSchedules r) in *.
    assert (0 < length cold)%nat by (destruct cold; [done | simpl; lia]).
    destruct (Nat.ltb_spec 0 (length cold)); [|lia].
    rewrite uint32_add_sub.
    destruct (_ =? 0); [done|].
    destruct (cold !! _) as [[p s]|] eqn:Hps; [|done].
    apply list_elem_of_lookup_2, elem_of_cold in Hps as [Hp _].
    cbn. split; [done|]. split.
    { rewrite list_fmap_insert. simpl. apply list_insert_id.
      by rewrite list_lookup_fmap, Hp. }
    exists p, s, k. done.
Qed.

(** X4. With fewer than 2^32 schedules a call of [Next] ends in a model or
    in [ErrNoHealthyModels]: the index into the cold list is in range
    and the divisor is not zero. *)
Theorem Next_does_not_panic r k :
  Z.of_nat (length (schedules r)) < 2 ^ 32 →
  (∃ m, (Next clock r k).1.1 = Ok m) ∨ (Next clock r k).1.1 = Err ErrNoHealthyModels.
Proof.
  intros Hlen. destruct (decide (getColdModelSchedules r = [])) as [Hnil|Hne].
  - rewrite Next_latency_based by done. cbv zeta.
    destruct (scan clock (latencyGetter r) 0 (schedules r) None k).1 as [[p s]|];
      simpl; eauto.
  - destruct (Next_warm_up clock r k Hne Hlen) as (p & s & _ & ->). simpl. eauto.
Qed.

(** X5. While some healthy model is not warmed up, [Next] returns a model
    that is healthy and not warmed up: no warmed-up model is served,
    however stale its schedule or small its latency. *)
Theorem Next_serves_cold_models_first r k :
  Z.of_nat (length (schedules r)) < 2 ^ 32 →
  (∃ s, s ∈ schedules r ∧ Healthy (model s) = true
        ∧ WarmedUp (latencyGetter r (model s)) = false) →
  ∃ m, (Next clock r k).1.1 = Ok m ∧ Healthy m = true
       ∧ WarmedUp (latencyGetter r m) = false.
Proof.
  intros Hlen (s0 & [q Hq]%list_elem_of_lookup & Hh0 & Hw0).
  assert (getColdModelSchedules r ≠ []) as Hne.
  { intros Hnil. assert ((q, s0) ∈ getColdModelSchedules r) as Hin.
    { apply elem_of_cold. split; [done|]. unfold is_cold. by rewrite Hh0, Hw0. }
    rewrite Hnil in Hin. by apply elem_of_nil in Hin. }
  destruct (Next_warm_up clock r k Hne Hlen) as (p & s & Hps & ->).
  apply list_elem_of_lookup_2, elem_of_cold in Hps as [_ Hc].
  unfold is_cold in Hc. apply andb_true_iff in Hc as [Hh Hw].
  exists (model s). split; [done|]. split; [done|]. by apply negb_true_iff in Hw.
Qed.

(** *** The cold list *)

Lemma coldFrom_positions getter ss : ∀ p i a,
  coldFrom getter p ss [] !! i = Some a →
  (p ≤ a.1)%nat
  ∧ ∀ j b, coldFrom getter p ss [] !! j = Some b → (i < j)%nat → (a.1 < b.1)%nat.
Proof.
  induction ss as [|s ss IH]; intros p i a; [done|].
  rewrite coldFrom_cons. destruct (is_cold getter s); simpl.
  - destruct i as [|i]; simpl.
    + intros [= <-]. split; [done|]. intros [|j] b Hb Hij; [lia|].
      simpl in Hb. destruct (IH (S p) j b Hb) as [Hge _]. simpl. lia.
    + intros Ha. destruct (IH (S p) i a Ha) as [Hge Hlt]. split; [lia|].
      intros [|j] b Hb Hij; [lia|]. simpl in Hb. apply (Hlt j b Hb). lia.
  - intros Ha. destruct (IH (S p) i a Ha) as [Hge Hlt]. split; [lia|done].
Qed.

(** X6. [getColdModelSchedules] lists the schedules whose model is healthy
    and not warmed up, and only those, in the order of [r.schedules]:
    the positions it lists grow strictly, so none is listed twice. *)
Theorem getColdModelSchedules_complete r :
  (∀ p s, (p, s) ∈ getColdModelSchedules r ↔
          schedules r !! p = Some s ∧ Healthy (model s) = true
          ∧ WarmedUp (latencyGetter r (model s)) = false)
  ∧ (∀ i j a b, getColdModelSchedules r !! i = Some a →
                getColdModelSchedules r !! j = Some b →
                (i < j)%nat → (a.1 < b.1)%nat).
Proof.
  split.
  - intros p s. rewrite elem_of_cold. unfold is_cold.
    rewrite andb_true_iff, negb_true_iff. tauto.
  - intros i j a b Ha Hb Hij.
    destruct (coldFrom_positions (latencyGetter r) (schedules r) 0 i a Ha) as [_ Hlt].
    by apply (Hlt j b).
Qed.

(** *** Stale schedules are served first *)

Lemma filter_insert_length {A} (f : A → bool) (l : list A) : ∀ p x y,
  l !! p = Some x → f x = true → f y = false →
  S (length (List.filter f (<[p := y]> l))) = length (List.filter f l).
Proof.
  induction l as [|a l IH]; intros p x y Hp Hx Hy; [done|].
  destruct p as [|p]; simpl in *.
  - injection Hp as ->. by rewrite Hx, Hy.
  - specialize (IH p x y Hp Hx Hy). destruct (f a); simpl; lia.
Qed.

Lemma stale_exists t0 r :
  (0 < stale_count t0 r)%nat →
  ∃ s, s ∈ schedules r ∧ Healthy (model s) = true ∧ expireAt s < t0.
Proof.
  unfold stale_count. intros Hpos.
  destruct (List.filter (is_stale t0) (schedules r)) as [|s l] eqn:E;
    [simpl in Hpos; lia|].
  assert (In s (List.filter (is_stale t0) (schedules r))) as Hin by (rewrite E; left; done).
  apply filter_In in Hin as [Hin Hs]. unfold is_stale in Hs.
  apply andb_true_iff in Hs as [Hh Hlt]. exists s.
  split; [by apply list_elem_of_In|]. split; [done|]. lia.
Qed.

(** One latency-based call while a stale schedule is left. *)
Lemma Next_serves_stale r k t0 t1 :
  getColdModelSchedules r = [] →
  (∀ j, (k ≤ j)%nat → t0 ≤ clock j ≤ t1) →
  (∀ m, m ∈ model <$> schedules r → Healthy m = true → 0 ≤ LatencyUpdateInterval m) →
  (0 < stale_count t0 r)%nat →
  ∃ p s k',
    schedules r !! p = Some s ∧ is_stale t0 s = true ∧ (k ≤ k')%nat
    ∧ Next clock r k = (Ok (model s), touched r (warmupIdx r) p s (clock k'), S k')
    ∧ S (stale_count t0 (touched r (warmupIdx r) p s (clock k'))) = stale_count t0 r.
Proof.
  intros Hnil Hclk Hint Hpos.
  pose proof (stale_exists t0 r Hpos) as Hsome.
  rewrite Next_latency_based by done. cbv zeta.
  pose proof (scan_expired_first clock (latencyGetter r) k t0 t1 Hclk (schedules r))
    as (Hh & Hk & Hexp).
  destruct (Hexp Hsome) as (p & s & Hfound & Hp & Hhs & Hall).
  destruct (scan clock (latencyGetter r) 0 (schedules r) None k) as [found k'].
  cbn [fst snd] in *. subst found.
  assert (expireAt s < t0) as Hlt.
  { destruct Hsome as (s' & [q Hq]%list_elem_of_lookup & Hh' & Hlt').
    destruct (Hall q s' Hq Hh'). lia. }
  assert (is_stale t0 s = true) as Hstale.
  { unfold is_stale. rewrite Hhs. simpl. lia. }
  exists p, s, k'. split; [done|]. split; [done|]. split; [done|]. split; [done|].
  unfold stale_count. simpl. apply (filter_insert_length _ _ p s); [done|done|].
  unfold is_stale. simpl. rewrite Hhs. simpl.
  assert (0 ≤ LatencyUpdateInterval (model s)) as Hi.
  { apply Hint; [|done]. apply list_elem_of_lookup. exists p.
    by rewrite list_lookup_fmap, Hp. }
  pose proof (Hclk k' Hk). lia.
Qed.

Lemma cold_nil_touched r c p s now :
  schedules r !! p = Some s →
  getColdModelSchedules r = [] →
  getColdModelSchedules (touched r c p s now) = [].
Proof.
  intros Hp Hnil. pose proof (touched_cold_view r c p s now Hp) as Hview.
  unfold cold_view in Hview. rewrite Hnil in Hview. simpl in Hview.
  by apply fmap_nil_inv in Hview.
Qed.

Lemma elem_of_touched r c p s now x :
  schedules r !! p = Some s →
  x ∈ schedules (touched r c p s now) →
  x = {| model := model s; expireAt := now + LatencyUpdateInterval (model s) |}
  ∨ x ∈ schedules r.
Proof.
  intros Hp [q Hq]%list_elem_of_lookup. simpl in Hq.
  destruct (decide (q = p)) as [->|Hne].
  - rewrite list_lookup_insert_eq in Hq by (by apply lookup_lt_Some in Hp).
    left. by injection Hq.
  - rewrite list_lookup_insert_ne in Hq by done. right.
    apply list_elem_of_lookup. eauto.
Qed.

(** X7. The schedules of healthy models that had expired before a run of
    latency-based calls began are served before anything else, one per
    call: after as many calls as there were such schedules none is
    left, and every one of these calls returned the model of one of
    them. The readings of the clock during the run lie between [t0]
    and [t1]; no update interval is negative. *)
Theorem stale_schedules_are_served_first t0 t1 : ∀ n r k,
  getColdModelSchedules r = [] →
  (∀ j, (k ≤ j)%nat → t0 ≤ clock j ≤ t1) →
  (∀ m, m ∈ model <$> schedules r → Healthy m = true → 0 ≤ LatencyUpdateInterval m) →
  stale_count t0 r = n →
  stale_count t0 (calls clock n r k).1.2 = 0%nat
  ∧ length (calls clock n r k).1.1 = n
  ∧ ∀ res, res ∈ (calls clock n r k).1.1 →
      ∃ s, s ∈ schedules r ∧ is_stale t0 s = true ∧ res = Ok (model s).
Proof.
  induction n as [|n IH]; intros r k Hnil Hclk Hint Hn.
  - simpl. split; [done|]. split; [done|]. by intros res ?%elem_of_nil.
  - destruct (Next_serves_stale r k t0 t1 Hnil Hclk Hint ltac:(lia))
      as (p & s & k' & Hp & Hstale & Hk & HN & Hcount).
    simpl. unfold bind. rewrite HN. cbn [fst snd].
    set (r' := touched r (warmupIdx r) p s (clock k')) in *.
    destruct (IH r' (S k')) as (Hzero & Hlen & Hres).
    + by apply cold_nil_touched.
    + intros j Hj. apply Hclk. lia.
    + intros m Hm. apply Hint. subst r'. by rewrite touched_models in Hm.
    + lia.
    + destruct (calls clock n r' (S k')) as [[others r''] k''].
      cbn [fst snd ret] in *. split; [done|]. split; [by rewrite length_cons, Hlen|].
      intros res [->|Hin]%elem_of_cons.
      * exists s. split; [|done]. apply list_elem_of_lookup. eauto.
      * destruct (Hres res Hin) as (x & Hx & Hxs & ->).
        exists x. split; [|done].
        destruct (elem_of_touched r (warmupIdx r) p s (clock k') x Hp Hx) as [->|]; [|done].
        exfalso. unfold is_stale in Hxs. simpl in Hxs.
        apply andb_true_iff in Hxs as [Hhs Hlt].
        assert (0 ≤ LatencyUpdateInterval (model s)) as Hi.
        { apply Hint; [|done]. apply list_elem_of_lookup. exists p.
          by rewrite list_lookup_fmap, Hp. }
        pose proof (Hclk k' Hk). lia.
Qed.

(** *** The fastest model is kept *)

Lemma least_latency_unique getter l q s q' s' :
  least_latency getter l q s → least_latency getter l q' s' → q = q' ∧ s = s'.
Proof.
  intros (Hq & Hs & Hall) (Hq' & Hs' & Hall').
  destruct (Hall q' s' Hq' Hs') as [Hle Hlt].
  destruct (Hall' q s Hq Hs) as [Hle' Hlt'].
  destruct (lt_eq_lt_dec q q') as [[Hlt1|Heq]|Hlt2].
  - specialize (Hlt' Hlt1). exfalso. apply (Qlt_not_le _ _ Hlt' Hle).
  - subst q'. split; [done|]. congruence.
  - specialize (Hlt Hlt2). exfalso. apply (Qlt_not_le _ _ Hlt Hle').
Qed.

Lemma least_latency_touched getter l q s x :
  least_latency getter l q s → model x = model s →
  least_latency getter (<[q := x]> l) q x.
Proof.
  intros (Hq & Hs & Hall) Hx. pose proof (lookup_lt_Some _ _ _ Hq) as Hlen.
  split; [by apply list_lookup_insert_eq|]. split; [by rewrite Hx|].
  intros q' y Hy Hhy. rewrite Hx.
  destruct (decide (q' = q)) as [->|Hne].
  - rewrite list_lookup_insert_eq in Hy by done. injection Hy as <-.
    rewrite Hx. split; [apply Qle_refl | lia].
  - rewrite list_lookup_insert_ne in Hy by done. by apply Hall.
Qed.

(** One latency-based call while no schedule of a healthy model has
    expired. *)
Lemma Next_serves_fastest r k t0 t1 q s :
  getColdModelSchedules r = [] →
  (∀ j, (k ≤ j)%nat → t0 ≤ clock j ≤ t1) →
  (∀ x, x ∈ schedules r → Healthy (model x) = true → t1 ≤ expireAt x) →
  least_latency (latencyGetter r) (schedules r) q s →
  ∃ k', (k ≤ k')%nat
    ∧ Next clock r k = (Ok (model s), touched r (warmupIdx r) q s (clock k'), S k').
Proof.
  intros Hnil Hclk Hfresh Hbest.
  rewrite Next_latency_based by done. cbv zeta.
  pose proof (scan_fastest_first clock (latencyGetter r) k t0 t1 Hclk (schedules r))
    as (Hh & Hk & Hfast).
  destruct (scan clock (latencyGetter r) 0 (schedules r) None k) as [[[p x]|] k'];
    cbn [fst snd] in *.
  - destruct (least_latency_unique _ _ _ _ _ _ (Hfast Hfresh p x eq_refl) Hbest)
      as [-> ->].
    exists k'. done.
  - destruct Hbest as (Hq & Hs & _). rewrite (Hh s) in Hs; [done|].
    apply list_elem_of_lookup. eauto.
Qed.

(** X8. Once every healthy model is warmed up and while no schedule of a
    healthy model expires, every call returns the same model: the
    healthy model with the least latency, the first such in configured
    order. The readings of the clock during the calls lie between [t0]
    and [t1], no healthy schedule expires before [t1], and an update
    interval is at least as long as [t1 - t0]. *)
Theorem fastest_model_is_kept t0 t1 : ∀ n r k q s,
  getColdModelSchedules r = [] →
  (∀ j, (k ≤ j)%nat → t0 ≤ clock j ≤ t1) →
  (∀ x, x ∈ schedules r → Healthy (model x) = true →
        t1 ≤ expireAt x ∧ t1 - t0 ≤ LatencyUpdateInterval (model x)) →
  least_latency (latencyGetter r) (schedules r) q s →
  (calls clock n r k).1.1 = replicate n (Ok (model s)).
Proof.
  induction n as [|n IH]; intros r k q s Hnil Hclk Hfresh Hbest; [done|].
  destruct (Next_serves_fastest r k t0 t1 q s Hnil Hclk) as (k' & Hk & HN);
    [by intros x Hx Hh; apply Hfresh | done |].
  pose proof Hbest as (Hq & Hs & _).
  simpl. unfold bind. rewrite HN. cbn [fst snd].
  set (x := {| model := model s;
               expireAt := clock k' + LatencyUpdateInterval (model s) |}).
  set (r' := touched r (warmupIdx r) q s (clock k')).
  specialize (IH r' (S k') q x).
  destruct (calls clock n r' (S k')) as [[others r''] k''].
  cbn [fst snd ret] in *. f_equal. apply IH.
  - by apply cold_nil_touched.
  - intros j Hj. apply Hclk. lia.
  - intros y Hy Hhy.
    destruct (elem_of_touched r (warmupIdx r) q s (clock k') y Hq Hy) as [->|Hin].
    + simpl. destruct (Hfresh s) as [_ Hi]; [apply list_elem_of_lookup; eauto|done|].
      pose proof (Hclk k' Hk). split; [lia|done].
    + by apply Hfresh.
  - subst r'. simpl. by apply (least_latency_touched _ _ q s x).
Qed.

(** *** The cursor *)

(** X9. At the largest value of the cursor a warm-up call takes it back to
    0, so that the call after it returns the first cold model,
    whatever the length of the cold list. *)
Theorem warm_up_cursor_wraps r k :
  getColdModelSchedules r ≠ [] →
  Z.of_nat (length (schedules r)) < 2 ^ 32 →
  warmupIdx r = 2 ^ 32 - 1 →
  warmupIdx (Next clock r k).1.2 = 0
  ∧ ∃ p s, getColdModelSchedules r !! 0%nat = Some (p, s)
           ∧ (calls clock 2 r k).1.1 !! 1%nat = Some (Ok (model s)).
Proof.
  intros Hne Hlen Hw. split.
  - destruct (Next_warm_up clock r k Hne Hlen) as (p & s & _ & ->).
    simpl. rewrite Hw. reflexivity.
  - destruct (calls_round_robin clock 2 r k 1 Hne Hlen ltac:(lia))
      as (p & m & Hpm & Hres).
    rewrite Hw in Hpm.
    replace (uint32 (2 ^ 32 - 1 + Z.of_nat 1)) with 0 in Hpm by reflexivity.
    rewrite Z.mod_0_l in Hpm by (destruct (getColdModelSchedules r); [done|simpl; lia]).
    apply cold_view_lookup in Hpm as (s & Hs & <-). eauto.
Qed.

(** *** From construction to rotation *)

Lemma coldFrom_all_cold getter ss : ∀ p,
  (∀ s, s ∈ ss → is_cold getter s = true) →
  coldFrom getter p ss [] = imap (λ i s, ((p + i)%nat, s)) ss.
Proof.
  induction ss as [|s ss IH]; intros p Hall; [done|].
  rewrite coldFrom_cons, (Hall s) by left. simpl.
  rewrite Nat.add_0_r. f_equal. rewrite IH.
  - apply imap_ext. intros i x _. simpl. f_equal. lia.
  - intros x Hx. apply Hall. by right.
Qed.

(** X2. A router built over models that are all healthy and not warmed up
    serves them in configured order, again and again, for as long as
    nothing warms up: call number [i] on the new router returns the
    model at position [i mod |models|]. *)
Theorem new_router_rotates getter models k :
  models ≠ [] →
  Z.of_nat (length models) < 2 ^ 32 →
  (∀ m, m ∈ models → Healthy m = true ∧ WarmedUp (getter m) = false) →
  let built := NewLeastLatencyRouting clock getter models k in
  ∀ n i, (i < n)%nat → Z.of_nat i < 2 ^ 32 →
    ∃ m, models !! (i mod length models)%nat = Some m
         ∧ (calls clock n built.1 built.2).1.1 !! i = Some (Ok m).
Proof.
  intros Hne Hlen Hall built n i Hi Hi32.
  subst built. rewrite NewLeastLatencyRouting_run. cbn [fst snd].
  set (r := {| latencyGetter := getter; warmupIdx := 0;
               schedules := imap (λ i m, scheduled (clock (k + i)%nat) m) models |}).
  assert (getColdModelSchedules r
          = imap (λ i s, (i, s)) (schedules r)) as Hcold.
  { unfold getColdModelSchedules. rewrite coldFrom_all_cold; [done|].
    intros s [j Hj]%list_elem_of_lookup. simpl in Hj.
    rewrite list_lookup_imap in Hj.
    destruct (models !! j) as [m|] eqn:Hm; [|done].
    injection Hj as <-. unfold is_cold, scheduled. simpl.
    destruct (Hall m) as [-> ->]; [|done]. apply list_elem_of_lookup. eauto. }
  assert (length (getColdModelSchedules r) = length models) as Hl.
  { rewrite Hcold. simpl. by rewrite !length_imap. }
  assert (0 < length models)%nat as Hpos by (destruct models; [done|simpl; lia]).
  destruct (calls_round_robin clock n r (k + length models) i) as (p & m & Hpm & Hres).
  - intros Hnil. rewrite Hnil in Hl. simpl in Hl. lia.
  - simpl. rewrite length_imap. done.
  - done.
  - exists m. split; [|done].
    rewrite Hl in Hpm. simpl in Hpm. rewrite Z.add_0_l in Hpm.
    rewrite uint32_small in Hpm by lia.
    rewrite <- Nat2Z.inj_mod, Nat2Z.id in Hpm.
    apply cold_view_lookup in Hpm as (s & Hs & <-).
    rewrite Hcold in Hs. simpl in Hs. rewrite !list_lookup_imap in Hs.
    destruct (models !! (i mod length models)%nat) as [m|]; [|done].
    simpl in Hs. by injection Hs as <- <-.
Qed.

End Extras.

(** *** The properties at sample routers *)

Import Router Samples MoreSamples.

Lemma Next_does_not_panic_witness :
  (∃ m, (Next (frozen 100) steady 0%nat).1.1 = Ok m)
  ∨ (Next (frozen 100) steady 0%nat).1.1 = Err ErrNoHealthyModels.
Proof.
  apply (Next_does_not_panic (frozen 100) steady 0). vm_compute. reflexivity.
Defined.

Lemma Next_serves_cold_models_first_witness :
  ∃ m, (Next (frozen 100) warming 0%nat).1.1 = Ok m ∧ Healthy m = true
       ∧ WarmedUp (latencyGetter warming m) = false.
Proof.
  apply (Next_serves_cold_models_first (frozen 100) warming 0).
  - vm_compute. reflexivity.
  - exists {| model := cold "first"; expireAt := 130 |}.
    split; [left | split; reflexivity].
Defined.

Lemma stale_schedules_are_served_first_witness :
  stale_count 100 (calls (frozen 100) 2 stale 0%nat).1.2 = 0%nat
  ∧ length (calls (frozen 100) 2 stale 0%nat).1.1 = 2%nat
  ∧ ∀ res, res ∈ (calls (frozen 100) 2 stale 0%nat).1.1 →
      ∃ s, s ∈ schedules stale ∧ is_stale 100 s = true ∧ res = Ok (model s).
Proof.
  apply (stale_schedules_are_served_first (frozen 100) 100 100 2 stale 0).
  - vm_compute. reflexivity.
  - intros j _. unfold frozen. lia.
  - intros m Hm _. simpl in Hm.
    repeat (apply elem_of_cons in Hm as [->|Hm]); [simpl; lia ..|].
    by apply elem_of_nil in Hm.
  - vm_compute. reflexivity.
Defined.

Lemma fastest_model_is_kept_witness :
  (calls (frozen 100) 3 steady 0%nat).1.1 = replicate 3 (Ok (warm "second" 2)).
Proof.
  apply (fastest_model_is_kept (frozen 100) 100 100 3 steady 0 1
           {| model := warm "second" 2; expireAt := 120 |}).
  - vm_compute. reflexivity.
  - intros j _. unfold frozen. lia.
  - intros x Hx _. simpl in Hx.
    repeat (apply elem_of_cons in Hx as [->|Hx]); [simpl; lia ..|].
    by apply elem_of_nil in Hx.
  - split; [reflexivity|]. split; [reflexivity|].
    intros [|[|[|q']]] s' Hs' _; simpl in Hs'; [| | |done];
      injection Hs' as <-; simpl; unfold Qle, Qlt; simpl; lia.
Defined.

Lemma warm_up_cursor_wraps_witness :
  warmupIdx (Next (frozen 100) wrapping 0%nat).1.2 = 0
  ∧ ∃ p s, getColdModelSchedules wrapping !! 0%nat = Some (p, s)
           ∧ (calls (frozen 100) 2 wrapping 0%nat).1.1 !! 1%nat = Some (Ok (model s)).
Proof.
  apply (warm_up_cursor_wraps (frozen 100) wrapping 0).
  - vm_compute. congruence.
  - vm_compute. reflexivity.
  - reflexivity.
Defined.

Lemma new_router_rotates_witness :
  ∃ m, [cold "first"; cold "second"; cold "third"] !! (4 mod 3)%nat = Some m
       ∧ (calls ticking 5
            (NewLeastLatencyRouting ticking ChatLatency
               [cold "first"; cold "second"; cold "third"] 0%nat).1
            (NewLeastLatencyRouting ticking ChatLatency
               [cold "first"; cold "second"; cold "third"] 0%nat).2).1.1 !! 4%nat
         = Some (Ok m).
Proof.
  apply (new_router_rotates ticking ChatLatency
           [cold "first"; cold "second"; cold "third"] 0).
  - done.
  - vm_compute. reflexivity.
  - intros m Hm.
    repeat (apply elem_of_cons in Hm as [->|Hm]); [by split ..|].
    by apply elem_of_nil in Hm.
  - lia.
  - vm_compute. reflexivity.
Defined.

End RoutingExtras.

(** * Further properties of the Cohere client *)

Module CohereExtras.
Import Http Cohere CohereTerms CohereFacts.

(** *** The request schema *)

(** X10. Whatever the template holds, [createRequestSchema] replaces its
    [Message] by the content of the request's message. With a non-empty
    history it replaces the template's [ChatHistory] by the history of
    the request; with an empty history it keeps the [ChatHistory] of the
    template. Every other field is the template's. *)
Theorem createRequestSchema_on_any_template c request :
  let built := createRequestSchema c request in
  let template := Client.chatRequestTemplate c in
  let history := Schemas.ChatRequest.MessageHistory request in
  ChatRequest.Message built
    = Schemas.ChatMessage.Content (Schemas.ChatRequest.Message request)
  ∧ ChatRequest.ChatHistory built
    = (if decide (history = []) then ChatRequest.ChatHistory template
       else to_cohere <$> history)
  ∧ set_ChatHistory [] (set_Message "" built)
    = set_ChatHistory [] (set_Message "" template).
Proof.
  cbv zeta. unfold createRequestSchema.
  destruct (Schemas.ChatRequest.MessageHistory request) as [|m ms]; [done|].
  cbn [length Nat.ltb Nat.leb]. rewrite appendHistory_map. done.
Qed.

(** X11. Of the request's message only the content reaches Cohere, and of an
    entry of the history only the role and the content: two requests
    that agree on these give the same Cohere request. *)
Theorem createRequestSchema_drops_role_and_names c request request' :
  Schemas.ChatMessage.Content (Schemas.ChatRequest.Message request)
    = Schemas.ChatMessage.Content (Schemas.ChatRequest.Message request') →
  to_cohere <$> Schemas.ChatRequest.MessageHistory request
    = to_cohere <$> Schemas.ChatRequest.MessageHistory request' →
  createRequestSchema c request = createRequestSchema c request'.
Proof.
  intros Hcontent Hhistory. unfold createRequestSchema. rewrite Hcontent.
  assert (length (Schemas.ChatRequest.MessageHistory request)
          = length (Schemas.ChatRequest.MessageHistory request')) as ->.
  { apply (f_equal length) in Hhistory. by rewrite !length_fmap in Hhistory. }
  by rewrite !appendHistory_map, Hhistory.
Qed.

Section WithEnvironment.

Variable providerName : string.
Variable json_Marshal : ChatRequest.t -> outcome bytes.
Variable json_Unmarshal : bytes -> outcome ChatCompletion.t.
Variable http_NewRequestWithContext : string -> string -> bytes -> outcome Request.t.
Variable unix_now : Z.

Abbreviation doChatRequest :=
  (doChatRequest providerName json_Marshal json_Unmarshal
     http_NewRequestWithContext unix_now).
Abbreviation Chat :=
  (Chat providerName json_Marshal json_Unmarshal http_NewRequestWithContext unix_now).

(** *** What is sent *)

(** X12. The one request [doChatRequest] hands to the HTTP client is the
    request [http.NewRequestWithContext] made for a POST to the chat
    URL with the marshalled payload, with the header Authorization set
    to "Bearer " and the API key and Content-Type to application/json,
    replacing what was there; the other headers, the method, the URL
    and the body are untouched. The client is consulted on no other
    request: a client that answers this one alike gives the same
    result. *)
Theorem doChatRequest_sends_one_request c payload rawPayload req :
  json_Marshal payload = Done rawPayload →
  http_NewRequestWithContext MethodPost (Client.chatURL c) rawPayload = Done req →
  let sent := with_headers c req in
  Request.Header sent !! "Authorization"
    = Some ("Bearer " +:+ Config.APIKey (Client.config c))
  ∧ Request.Header sent !! "Content-Type" = Some "application/json"
  ∧ (∀ key, key ≠ "Authorization" → key ≠ "Content-Type" →
       Request.Header sent !! key = Request.Header req !! key)
  ∧ Request.Method sent = Request.Method req
  ∧ Request.URL sent = Request.URL req
  ∧ Request.Body sent = Request.Body req
  ∧ (∀ c', same_but_transport c c' →
       Client.httpClient c' sent = Client.httpClient c sent →
       doChatRequest c' payload = doChatRequest c payload).
Proof.
  intros Hm Hn sent.
  assert (∀ c', same_but_transport c c' →
            Client.httpClient c' sent = Client.httpClient c sent →
            doChatRequest c' payload = doChatRequest c payload) as Honly.
  { intros c' (Hurl & _ & Hmap & Hcfg) Hsame.
    unfold Cohere.doChatRequest. rewrite Hm. simpl. rewrite Hurl, Hn. simpl.
    subst sent. unfold with_headers in Hsame. rewrite Hcfg, Hsame, Hmap. done. }
  subst sent. unfold with_headers, Header_Set in *. cbn.
  split; [by rewrite lookup_insert_ne, lookup_insert_eq|].
  split; [by rewrite lookup_insert_eq|].
  split; [intros key H1 H2; by rewrite !lookup_insert_ne|].
  done.
Qed.

(** *** Failures *)

(** X13. A payload that cannot be marshalled and a request that cannot be
    built end the call before anything is sent: the error is the
    library's, wrapped under a message that names the step. *)
Theorem doChatRequest_fails_before_sending c payload :
  (∀ description,
      json_Marshal payload = Failed description →
      doChatRequest c payload
      = Err (Errorf "unable to marshal cohere chat request payload"
               (ExternalError description)))
  ∧ (∀ rawPayload description,
      json_Marshal payload = Done rawPayload →
      http_NewRequestWithContext MethodPost (Client.chatURL c) rawPayload
        = Failed description →
      doChatRequest c payload
      = Err (Errorf "unable to create cohere chat request" (ExternalError description))).
Proof.
  unfold Cohere.doChatRequest. split.
  - intros description ->. done.
  - intros rawPayload description Hm Hn. rewrite Hm. simpl. by rewrite Hn.
Qed.

(** X14. After a response with status 200, a body that cannot be read and a
    body that cannot be decoded end the call with the library's error
    as it is, neither wrapped nor mapped. *)
Theorem doChatRequest_fails_after_receiving c payload rawPayload req resp :
  json_Marshal payload = Done rawPayload →
  http_NewRequestWithContext MethodPost (Client.chatURL c) rawPayload = Done req →
  Client.httpClient c (with_headers c req) = Done resp →
  Response.StatusCode resp = StatusOK →
  (∀ description,
      Response.Body resp = Failed description →
      doChatRequest c payload = Err (ExternalError description))
  ∧ (∀ bodyBytes description,
      Response.Body resp = Done bodyBytes →
      json_Unmarshal bodyBytes = Failed description →
      doChatRequest c payload = Err (ExternalError description)).
Proof.
  intros Hm Hn Hd Hs. unfold Cohere.doChatRequest, with_headers in *.
  rewrite Hm. simpl. rewrite Hn. simpl. rewrite Hd. simpl. rewrite Hs. simpl.
  split.
  - intros description ->. done.
  - intros bodyBytes description Hb Hu. rewrite Hb. simpl. by rewrite Hu.
Qed.

(** X15. Only the status 200 counts as success: a response with another 2xx
    status is answered with the mapper's error, like any failure, and
    its body is not decoded. *)
Theorem doChatRequest_takes_only_200 c payload rawPayload req resp :
  json_Marshal payload = Done rawPayload →
  http_NewRequestWithContext MethodPost (Client.chatURL c) rawPayload = Done req →
  Client.httpClient c (with_headers c req) = Done resp →
  200 < Response.StatusCode resp ≤ 299 →
  doChatRequest c payload = Err (Client.errMapper c resp).
Proof.
  intros Hm Hn Hd Hs.
  apply (doChatRequest_received providerName json_Marshal json_Unmarshal
           http_NewRequestWithContext unix_now c payload rawPayload req resp);
    try done.
  unfold StatusOK. lia.
Qed.

(** *** Success *)

Lemma doChatRequest_completed c payload rawPayload req resp bodyBytes completion :
  json_Marshal payload = Done rawPayload →
  http_NewRequestWithContext MethodPost (Client.chatURL c) rawPayload = Done req →
  Client.httpClient c (with_headers c req) = Done resp →
  Response.StatusCode resp = StatusOK →
  Response.Body resp = Done bodyBytes →
  json_Unmarshal bodyBytes = Done completion →
  doChatRequest c payload = Ok (response_of providerName unix_now c completion).
Proof.
  intros Hm Hn Hd Hs Hb Hu. unfold Cohere.doChatRequest, with_headers in *.
  rewrite Hm. simpl. rewrite Hn. simpl. rewrite Hd. simpl. rewrite Hs. simpl.
  rewrite Hb. simpl. by rewrite Hu.
Qed.

(** X16. [doChatRequest] succeeds exactly when every step does: the payload
    is marshalled, the request is built and sent, the response has
    status 200, its body is read and decoded. Its result is then the
    normalized response made of the decoded completion. *)
Theorem doChatRequest_succeeds_iff c payload response :
  doChatRequest c payload = Ok response ↔
  ∃ rawPayload req resp bodyBytes completion,
    json_Marshal payload = Done rawPayload
    ∧ http_NewRequestWithContext MethodPost (Client.chatURL c) rawPayload = Done req
    ∧ Client.httpClient c (with_headers c req) = Done resp
    ∧ Response.StatusCode resp = StatusOK
    ∧ Response.Body resp = Done bodyBytes
    ∧ json_Unmarshal bodyBytes = Done completion
    ∧ response = response_of providerName unix_now c completion.
Proof.
  split.
  - unfold Cohere.doChatRequest, with_headers.
    destruct (json_Marshal payload) as [rawPayload|]; simpl; [|done].
    destruct (http_NewRequestWithContext _ _ _) as [req|] eqn:Hn; simpl; [|done].
    destruct (Client.httpClient c _) as [resp|] eqn:Hd; simpl; [|done].
    destruct (Z.eqb_spec (Response.StatusCode resp) StatusOK) as [Hs|]; simpl; [|done].
    destruct (Response.Body resp) as [bodyBytes|] eqn:Hb; simpl; [|done].
    destruct (json_Unmarshal bodyBytes) as [completion|] eqn:Hu; simpl; [|done].
    intros [= <-]. exists rawPayload, req, resp, bodyBytes, completion. done.
  - intros (rawPayload & req & resp & bodyBytes & completion
            & Hm & Hn & Hd & Hs & Hb & Hu & ->).
    by apply (doChatRequest_completed c payload rawPayload req resp bodyBytes).
Qed.

(** X17. In a response of [doChatRequest] the system ids are exactly
    "generationId" and "responseId", and the latter is the id of the
    response. *)
Theorem doChatRequest_system_ids c payload response :
  doChatRequest c payload = Ok response →
  let ids := Schemas.ModelResponse.SystemID
               (Schemas.ChatResponse.ModelResponse response) in
  ids !! "responseId" = Some (Schemas.ChatResponse.ID response)
  ∧ is_Some (ids !! "generationId")
  ∧ ∀ key, is_Some (ids !! key) → key = "generationId" ∨ key = "responseId".
Proof.
  intros Hok. apply doChatRequest_Ok in Hok as [completion ->]. cbn.
  split; [by rewrite lookup_insert_ne, lookup_singleton_eq|].
  split; [by rewrite lookup_insert_eq|].
  intros key [v Hv].
  destruct (decide (key = "generationId")) as [|Hg]; [by left|].
  rewrite lookup_insert_ne in Hv by done.
  destruct (decide (key = "responseId")) as [|Hr]; [by right|].
  by rewrite lookup_singleton_ne in Hv.
Qed.

(** *** [Chat] *)

(** X18. [Chat] returns the response of [doChatRequest] for the request
    schema, unchanged, when its content is not empty, and every error
    of [doChatRequest] unchanged; the one error of its own is
    [ErrEmptyResponse], for a response with empty content. *)
Theorem Chat_passes_through c request :
  let sent := doChatRequest c (createRequestSchema c request) in
  (∀ response,
      Chat c request = Ok response ↔ sent = Ok response ∧ content response ≠ "")
  ∧ (∀ e,
      Chat c request = Err e ↔
      sent = Err e
      ∨ (e = ErrEmptyResponse ∧ ∃ response, sent = Ok response ∧ content response = "")).
Proof.
  cbv zeta. unfold Cohere.Chat, content.
  destruct (Cohere.doChatRequest _ _ _ _ _ c _) as [chatResponse|e0|].
  - destruct (Nat.eqb_spec (String.length
      (Schemas.ChatMessage.Content (Schemas.ModelResponse.Message
         (Schemas.ChatResponse.ModelResponse chatResponse)))) 0) as [Hz|Hnz].
    + assert (Schemas.ChatMessage.Content (Schemas.ModelResponse.Message
         (Schemas.ChatResponse.ModelResponse chatResponse)) = "") as Hempty.
      { by destruct (Schemas.ChatMessage.Content _). }
      split.
      * intros response. split; [done|]. intros [[= <-] Hne]. done.
      * intros e. split.
        -- intros [= <-]. right. eauto.
        -- intros [?|[-> _]]; done.
    + assert (Schemas.ChatMessage.Content (Schemas.ModelResponse.Message
         (Schemas.ChatResponse.ModelResponse chatResponse)) ≠ "") as Hfull.
      { intros Hempty. by rewrite Hempty in Hnz. }
      split.
      * intros response. split; [by intros [= <-] | by intros [[= <-] _]].
      * intros e. split; [done|].
        intros [?|(_ & response & [= <-] & ?)]; done.
  - split.
    + intros response. split; [done | by intros [? _]].
    + intros e. split; [intros [= <-]; by left|].
      intros [[= <-]|(_ & response & ? & _)]; done.
  - split.
    + intros response. split; [done | by intros [? _]].
    + intros e. split; [done|]. intros [?|(_ & response & ? & _)]; done.
Qed.

(** X19. The text of the provider's completion comes back as the content of
    the response: when every step of the call succeeds and the text is
    not empty, [Chat] returns the normalized response of that
    completion. *)
Theorem Chat_returns_completion_text c request rawPayload req resp bodyBytes completion :
  json_Marshal (createRequestSchema c request) = Done rawPayload →
  http_NewRequestWithContext MethodPost (Client.chatURL c) rawPayload = Done req →
  Client.httpClient c (with_headers c req) = Done resp →
  Response.StatusCode resp = StatusOK →
  Response.Body resp = Done bodyBytes →
  json_Unmarshal bodyBytes = Done completion →
  ChatCompletion.Text completion ≠ "" →
  Chat c request = Ok (response_of providerName unix_now c completion)
  ∧ content (response_of providerName unix_now c completion)
    = ChatCompletion.Text completion.
Proof.
  intros Hm Hn Hd Hs Hb Hu Htext. split; [|done].
  unfold Cohere.Chat.
  rewrite (doChatRequest_completed c _ rawPayload req resp bodyBytes completion)
    by done.
  cbn. destruct (ChatCompletion.Text completion); done.
Qed.

End WithEnvironment.

(** *** The properties at sample clients *)

Import Samples MoreSamples.

Lemma createRequestSchema_drops_role_and_names_witness :
  createRequestSchema (client (Done (answer 200))) question
  = createRequestSchema (client (Done (answer 200))) question_again.
Proof.
  apply createRequestSchema_drops_role_and_names; reflexivity.
Defined.

Lemma doChatRequest_sends_one_request_witness :
  let c := client (Done (answer 200)) in
  let payload := createRequestSchema c question in
  ∃ req,
    new_request MethodPost (Client.chatURL c) [] = Done req
    ∧ Request.Header (with_headers c req) !! "Authorization" = Some "Bearer secret"
    ∧ Request.Header (with_headers c req) !! "Content-Type" = Some "application/json".
Proof.
  cbv zeta. eexists. split; [reflexivity|].
  pose proof (doChatRequest_sends_one_request "cohere" marshal
                (unmarshal (completion "fine")) new_request 1700000000
                (client (Done (answer 200)))
                (createRequestSchema (client (Done (answer 200))) question)
                [] _ eq_refl eq_refl) as (H1 & H2 & _).
  split; [exact H1 | exact H2].
Defined.

Lemma doChatRequest_fails_before_sending_witness :
  doChatRequest "cohere" marshal_fails (unmarshal (completion "fine")) new_request
    1700000000 (client (Done (answer 200)))
    (createRequestSchema (client (Done (answer 200))) question)
  = Err (Errorf "unable to marshal cohere chat request payload"
           (ExternalError "unsupported value")).
Proof.
  apply (proj1 (doChatRequest_fails_before_sending "cohere" marshal_fails
                  (unmarshal (completion "fine")) new_request 1700000000
                  (client (Done (answer 200))) _)).
  reflexivity.
Defined.

Lemma doChatRequest_fails_after_receiving_witness :
  doChatRequest "cohere" marshal (unmarshal (completion "fine")) new_request
    1700000000 (client (Done unreadable))
    (createRequestSchema (client (Done unreadable)) question)
  = Err (ExternalError "unexpected EOF")
  ∧ doChatRequest "cohere" marshal unmarshal_fails new_request
      1700000000 (client (Done (answer 200)))
      (createRequestSchema (client (Done (answer 200))) question)
    = Err (ExternalError "unexpected end of JSON input").
Proof.
  split.
  - refine (proj1 (doChatRequest_fails_after_receiving "cohere" marshal
                     (unmarshal (completion "fine")) new_request 1700000000
                     (client (Done unreadable)) _ _ _ unreadable
                     eq_refl eq_refl eq_refl eq_refl) _ eq_refl).
  - refine (proj2 (doChatRequest_fails_after_receiving "cohere" marshal
                     unmarshal_fails new_request 1700000000
                     (client (Done (answer 200))) _ _ _ (answer 200)
                     eq_refl eq_refl eq_refl eq_refl) _ _ eq_refl eq_refl).
Defined.

Lemma doChatRequest_takes_only_200_witness :
  doChatRequest "cohere" marshal (unmarshal (completion "fine")) new_request
    1700000000 (client (Done (answer 201)))
    (createRequestSchema (client (Done (answer 201))) question)
  = Err (ExternalError "provider failed").
Proof.
  refine (doChatRequest_takes_only_200 "cohere" marshal (unmarshal (completion "fine"))
            new_request 1700000000 (client (Done (answer 201))) _ _ _ (answer 201)
            eq_refl eq_refl eq_refl _).
  vm_compute. split; congruence.
Defined.

Lemma doChatRequest_system_ids_witness :
  match doChatRequest "cohere" marshal (unmarshal (completion "fine")) new_request
          1700000000 (client (Done (answer 200)))
          (createRequestSchema (client (Done (answer 200))) question) with
  | Ok response =>
      let ids := Schemas.ModelResponse.SystemID
                   (Schemas.ChatResponse.ModelResponse response) in
      ids !! "responseId" = Some (Schemas.ChatResponse.ID response)
      ∧ is_Some (ids !! "generationId")
      ∧ ∀ key, is_Some (ids !! key) → key = "generationId" ∨ key = "responseId"
  | _ => False
  end.
Proof.
  destruct (doChatRequest "cohere" marshal (unmarshal (completion "fine")) new_request
              1700000000 (client (Done (answer 200)))
              (createRequestSchema (client (Done (answer 200))) question))
    as [response| |] eqn:E.
  - exact (doChatRequest_system_ids "cohere" marshal (unmarshal (completion "fine"))
             new_request 1700000000 (client (Done (answer 200))) _ response E).
  - vm_compute in E. discriminate E.
  - vm_compute in E. discriminate E.
Defined.

Lemma Chat_returns_completion_text_witness :
  Chat "cohere" marshal (unmarshal (completion "fine")) new_request 1700000000
    (client (Done (answer 200))) question
  = Ok (response_of "cohere" 1700000000 (client (Done (answer 200))) (completion "fine"))
  ∧ content (response_of "cohere" 1700000000 (client (Done (answer 200)))
               (completion "fine"))
    = "fine".
Proof.
  refine (Chat_returns_completion_text "cohere" marshal (unmarshal (completion "fine"))
            new_request 1700000000 (client (Done (answer 200))) question
            _ _ (answer 200) _ (completion "fine")
            eq_refl eq_refl eq_refl eq_refl eq_refl eq_refl _).
  discriminate.
Defined.

End CohereExtras.

(** * Properties of the server manager *)

Module ApiExtras.
Import Api.

Section WithServer.

Variables Server ServerConfig : Type.
Variable http_NewServer : ServerConfig -> option Server * option error.

Implicit Types (m : ServerManager Server) (s : System Server).

Lemma NewServerManager_Some httpConfig m err :
  NewServerManager http_NewServer httpConfig = (Some m, err) →
  shutdownWG m = 0 ∧ err = None ∧ http_NewServer httpConfig = (httpServer m, None).
Proof.
  unfold NewServerManager. destruct (http_NewServer httpConfig) as [server [e|]].
  - done.
  - by intros [= <- <-].
Qed.

Lemma unfinished_snoc gs g :
  unfinished (gs ++ [g]) = (unfinished gs + (if alive g then 1 else 0))%nat.
Proof.
  unfold unfinished. rewrite List.filter_app, length_app. simpl.
  fold (alive g). by destruct (alive g).
Qed.

Lemma unfinished_insert gs : ∀ i g g',
  gs !! i = Some g →
  (unfinished (<[i := g']> gs) + (if alive g then 1 else 0)
   = unfinished gs + (if alive g' then 1 else 0))%nat.
Proof.
  unfold unfinished. induction gs as [|a gs IH]; intros i g g' Hi; [done|].
  destruct i as [|i]; simpl in *.
  - injection Hi as ->. fold (alive g) (alive g').
    destruct (alive g), (alive g'); simpl; lia.
  - specialize (IH i g g' Hi). fold (alive a). destruct (alive a); simpl; lia.
Qed.

Lemma unfinished_none gs :
  unfinished gs = 0%nat → ∀ g, g ∈ gs → g = Ended.
Proof.
  unfold unfinished. induction gs as [|a gs IH]; intros Hz g Hg;
    [by apply elem_of_nil in Hg|].
  simpl in Hz. destruct a; simpl in Hz; try lia.
  apply elem_of_cons in Hg as [->|Hg]; [done|]. by apply IH.
Qed.

Lemma step_counted s s' : step s s' → counted s → counted s'.
Proof.
  unfold counted.
  destruct 1 as [m gs rest done_ Hs | m gs rest done_ Hs | m gs rest done_
                | m gs rest done_ Hs | m gs rest done_ err Hs
                | m gs rest done_ err Hz | m gs i c rest done_ err Hi
                | m gs i c rest done_ err Hi | m gs i c rest done_ Hi];
    simpl; intros Hc.
  - done.
  - lia.
  - rewrite unfinished_snoc. simpl. lia.
  - done.
  - done.
  - done.
  - pose proof (unfinished_insert gs i Running (Returned err) Hi). simpl in *. lia.
  - pose proof (unfinished_insert gs i (Returned err) Printed Hi). simpl in *. lia.
  - pose proof (unfinished_insert gs i Printed Ended Hi). simpl in *. lia.
Qed.

Lemma reachable_counted m program s :
  shutdownWG m = 0 → rtc step (boot m program) s → counted s.
Proof.
  intros Hz Hrun. revert s Hrun. apply rtc_ind_r.
  - unfold counted. simpl. done.
  - intros y z _ Hstep Hy. by eapply step_counted.
Qed.

(** X20. For a manager that [NewServerManager] has returned, whatever the
    calls and however the goroutines are scheduled, the counter of the
    wait group is the number of goroutines of [Start] that have not yet
    called [Done], plus one while [Start] stands between [Add] and
    [go]: it never falls below zero, and [Done] is never called more
    often than [Add]. *)
Theorem wait_group_counts_goroutines httpConfig m err program s :
  NewServerManager http_NewServer httpConfig = (Some m, err) →
  rtc step (boot m program) s →
  shutdownWG (mgr s)
  = Z.of_nat (unfinished (goroutines s)) + (match at_ s with Added => 1 | _ => 0 end)
  ∧ 0 ≤ shutdownWG (mgr s).
Proof.
  intros (Hz & _ & _)%NewServerManager_Some Hrun.
  pose proof (reachable_counted m program s Hz Hrun) as Hc.
  split; [exact Hc|]. unfold counted in Hc. destruct (at_ s); lia.
Qed.

(** X21. A call of [Shutdown] on a manager that [NewServerManager] has
    returned returns only when every goroutine that [Start] has
    launched has run to its end, the deferred [Done] included. *)
Theorem Shutdown_waits_for_goroutines httpConfig m err program s s' :
  NewServerManager http_NewServer httpConfig = (Some m, err) →
  rtc step (boot m program) s →
  step s s' →
  shutdowns s' ≠ shutdowns s →
  Forall (λ g, g = Ended) (goroutines s').
Proof.
  intros (Hz & _ & _)%NewServerManager_Some Hrun Hstep Hret.
  pose proof (reachable_counted m program s Hz Hrun) as Hc. unfold counted in Hc.
  destruct Hstep; simpl in *; try done.
  apply Forall_forall, unfinished_none. lia.
Qed.

Lemma step_server s s' : step s s' → httpServer (mgr s') = httpServer (mgr s).
Proof. by destruct 1. Qed.

Lemma reachable_without_server m program s :
  httpServer m = None →
  rtc step (boot m program) s →
  httpServer (mgr s) = None ∧ goroutines s = [] ∧ at_ s ≠ Added
  ∧ ∀ err, err ∈ shutdowns s ∨ at_ s = Waiting err → err = None.
Proof.
  intros Hnil Hrun. revert s Hrun. apply rtc_ind_r.
  - simpl. split; [done|]. split; [done|]. split; [done|].
    intros err [?%elem_of_nil|?]; done.
  - intros s s' _ Hstep IH. destruct IH as (Hs & Hg & Ha & He).
    destruct Hstep; simpl in *; try congruence.
    + split; [done|]. split; [done|]. split; [done|].
      intros e [?|?]; [|done]. apply He. by left.
    + split; [done|]. split; [done|]. split; [done|].
      intros e [?|[= <-]]; [|done]. apply He. by left.
    + split; [done|]. split; [done|]. split; [done|].
      intros e [[?| ->%list_elem_of_singleton]%elem_of_app|?]; [| |done].
      * apply He. by left.
      * apply He. by right.
    + by subst.
    + by subst.
    + by subst.
Qed.

(** X22. When [http.NewServer] gives neither a server nor an error,
    [NewServerManager] returns a manager all the same; that manager
    launches no goroutine, and each of its calls of [Shutdown] returns
    nil. When [http.NewServer] gives an error, no manager is returned
    and the error is passed on. *)
Theorem manager_without_server_is_inert httpConfig :
  (http_NewServer httpConfig = (None, None) →
   ∃ m, NewServerManager http_NewServer httpConfig = (Some m, None)
        ∧ ∀ program s, rtc step (boot m program) s →
            goroutines s = [] ∧ ∀ err, err ∈ shutdowns s → err = None)
  ∧ (∀ server e, http_NewServer httpConfig = (server, Some e) →
       NewServerManager http_NewServer httpConfig = (None, Some e)).
Proof.
  unfold NewServerManager. split.
  - intros ->. eexists. split; [done|]. intros program s Hrun.
    destruct (reachable_without_server {| httpServer := None; shutdownWG := 0 |}
                program s eq_refl Hrun) as (_ & Hg & _ & He).
    split; [done|]. intros err Herr. apply He. by left.
  - by intros server e ->.
Qed.

(** *** Every call can return *)

Lemma work_insert gs : ∀ i g g',
  gs !! i = Some g →
  (work (<[i := g']> gs) + remaining g = work gs + remaining g')%nat.
Proof.
  induction gs as [|a gs IH]; intros i g g' Hi; [done|].
  destruct i as [|i]; simpl in *.
  - injection Hi as ->. lia.
  - specialize (IH i g g' Hi). lia.
Qed.

Lemma work_pending gs :
  (0 < work gs)%nat → ∃ i g, gs !! i = Some g ∧ g ≠ Ended.
Proof.
  induction gs as [|a gs IH]; simpl; [lia|]. intros Hpos.
  destruct a as [|err| |];
    try (by eexists 0%nat, _; split; [reflexivity|discriminate]).
  assert (0 < work gs)%nat as Hw by (simpl in Hpos; lia).
  destruct (IH Hw) as (i & g & Hi & Hg). by exists (S i), g.
Qed.

Lemma work_none gs : work gs = 0%nat → unfinished gs = 0%nat.
Proof.
  unfold unfinished. induction gs as [|a gs IH]; simpl; [done|].
  destruct a; simpl; intros Hz; try lia; by apply IH.
Qed.

(** The goroutines can always run to their end, the caller standing
    where it stands. *)
Lemma goroutines_can_end n : ∀ s,
  work (goroutines s) = n →
  ∃ s', rtc step s s' ∧ unfinished (goroutines s') = 0%nat
        ∧ at_ s' = at_ s ∧ pending s' = pending s ∧ shutdowns s' = shutdowns s.
Proof.
  induction n as [|n IH]; intros s Hn.
  - exists s. split; [apply rtc_refl|]. split; [by apply work_none|done].
  - destruct (work_pending (goroutines s)) as (i & g & Hi & Hg); [lia|].
    destruct s as [m gs c rest done_]. simpl in *.
    assert (∃ g', step {| mgr := m; goroutines := gs; at_ := c; pending := rest;
                          shutdowns := done_ |}
                       {| mgr := (match g with Printed => with_counter (-1) m | _ => m end);
                          goroutines := <[i := g']> gs; at_ := c; pending := rest;
                          shutdowns := done_ |}
                  ∧ remaining g = S (remaining g')) as (g' & Hstep & Hrem).
    { destruct g as [|err| |]; [| | |done].
      - exists (Returned None). split; [|done]. by apply run_returns.
      - exists Printed. split; [|done]. by eapply run_prints.
      - exists Ended. split; [|done]. by apply run_done. }
    pose proof (work_insert gs i g g' Hi) as Hw.
    destruct (IH {| mgr := (match g with Printed => with_counter (-1) m | _ => m end);
                    goroutines := <[i := g']> gs; at_ := c; pending := rest;
                    shutdowns := done_ |}) as (s' & Hrun & Hs');
      [simpl; lia|].
    exists s'. split; [by eapply rtc_l|]. exact Hs'.
Qed.

Lemma rtc_counted s s' : rtc step s s' → counted s → counted s'.
Proof. induction 1; eauto using step_counted. Qed.

(** A call of [Shutdown] that waits can return. *)
Lemma waiting_can_return s err :
  counted s → at_ s = Waiting err →
  ∃ s', rtc step s s' ∧ counted s' ∧ at_ s' = Idle ∧ pending s' = pending s
        ∧ shutdowns s' = shutdowns s ++ [err].
Proof.
  intros Hc Hat.
  destruct (goroutines_can_end _ s eq_refl) as (s1 & Hrun & Hz & Hat1 & Hp1 & Hd1).
  pose proof (rtc_counted s s1 Hrun Hc) as Hc1.
  destruct s1 as [m gs c rest done_]. simpl in *. subst.
  unfold counted in Hc1. simpl in Hc1. rewrite Hz, Hat in Hc1.
  eexists. split; [|split].
  - eapply rtc_r; [exact Hrun|]. rewrite Hat. apply shutdown_return. simpl in Hc1. lia.
  - unfold counted. simpl. rewrite Hz. simpl in Hc1. lia.
  - done.
Qed.

Lemma calls_can_return program : ∀ s,
  counted s → at_ s = Idle → pending s = program →
  ∃ s', rtc step s s' ∧ at_ s' = Idle ∧ pending s' = [].
Proof.
  induction program as [|[|] rest IH]; intros s Hc Hat Hp.
  - exists s. split; [apply rtc_refl|done].
  - destruct s as [m gs c pend done_]. simpl in *. subst.
    destruct (httpServer m) as [server|] eqn:Hs.
    + set (s1 := {| mgr := with_counter 1 m; goroutines := gs; at_ := Added;
                    pending := rest; shutdowns := done_ |}).
      set (s2 := {| mgr := with_counter 1 m; goroutines := gs ++ [Running];
                    at_ := Idle; pending := rest; shutdowns := done_ |}).
      assert (step {| mgr := m; goroutines := gs; at_ := Idle;
                      pending := CallStart :: rest; shutdowns := done_ |} s1) as H1.
      { apply start_add. by rewrite Hs. }
      assert (step s1 s2) as H2 by apply start_go.
      destruct (IH s2) as (s' & Hrun & Hs'); [|done|done|].
      { by eapply step_counted, step_counted. }
      exists s'. split; [|done]. eapply rtc_l; [exact H1|]. by eapply rtc_l.
    + set (s1 := {| mgr := m; goroutines := gs; at_ := Idle;
                    pending := rest; shutdowns := done_ |}).
      assert (step {| mgr := m; goroutines := gs; at_ := Idle;
                      pending := CallStart :: rest; shutdowns := done_ |} s1) as H1.
      { by apply start_without_server. }
      destruct (IH s1) as (s' & Hrun & Hs'); [|done|done|].
      { by eapply step_counted. }
      exists s'. split; [|done]. by eapply rtc_l.
  - destruct s as [m gs c pend done_]. simpl in *. subst.
    set (s1 := {| mgr := m; goroutines := gs; at_ := Waiting None;
                  pending := rest; shutdowns := done_ |}).
    assert (step {| mgr := m; goroutines := gs; at_ := Idle;
                    pending := CallShutdown :: rest; shutdowns := done_ |} s1) as H1.
    { destruct (httpServer m) as [server|] eqn:Hs.
      - apply shutdown_server. by rewrite Hs.
      - by apply shutdown_without_server. }
    destruct (waiting_can_return s1 None) as (s2 & Hrun2 & Hc2 & Hat2 & Hp2 & _);
      [by eapply step_counted | done |].
    destruct (IH s2 Hc2 Hat2 Hp2) as (s' & Hrun & Hs').
    exists s'. split; [|done].
    eapply rtc_l; [exact H1|]. by eapply rtc_trans.
Qed.

(** X23. No run gets stuck: from every moment of a run of a manager that
    [NewServerManager] has returned, the calls that are under way or
    still to come can all return, the goroutines running to their end
    on the way. *)
Theorem calls_can_always_return httpConfig m err program s :
  NewServerManager http_NewServer httpConfig = (Some m, err) →
  rtc step (boot m program) s →
  ∃ s', rtc step s s' ∧ at_ s' = Idle ∧ pending s' = []
        ∧ Forall (λ g, g = Ended) (goroutines s').
Proof.
  intros (Hz & _ & _)%NewServerManager_Some Hrun.
  pose proof (reachable_counted m program s Hz Hrun) as Hc.
  assert (∃ s1, rtc step s s1 ∧ counted s1 ∧ at_ s1 = Idle) as (s1 & Hrun1 & Hc1 & Hat1).
  { destruct (at_ s) as [| |e] eqn:Hat.
    - exists s. split; [apply rtc_refl|done].
    - destruct s as [m0 gs c rest done_]. simpl in Hat. subst c.
      eexists. split; [apply rtc_once, start_go|].
      split; [|done]. eapply step_counted; [apply start_go|done].
    - destruct (waiting_can_return s e Hc Hat) as (s1 & H1 & H2 & H3 & _). eauto. }
  destruct (calls_can_return (pending s1) s1 Hc1 Hat1 eq_refl) as (s2 & Hrun2 & Hat2 & Hp2).
  pose proof (rtc_counted s1 s2 Hrun2 Hc1) as Hc2.
  destruct (goroutines_can_end _ s2 eq_refl) as (s3 & Hrun3 & Hz3 & Hat3 & Hp3 & _).
  exists s3. split; [by eapply rtc_trans; [|eapply rtc_trans]|].
  split; [congruence|]. split; [congruence|].
  by apply Forall_forall, unfinished_none.
Qed.

End WithServer.

(** *** A run of the sample manager *)

Import MoreSamples.

Lemma run_to_serving : rtc step (boot manager [CallStart; CallShutdown]) serving.
Proof.
  unfold boot, manager, serving.
  eapply rtc_l; [by apply start_add|]. simpl.
  eapply rtc_l; [apply start_go|]. simpl.
  eapply rtc_l; [by apply (shutdown_server _ _ _ _ _ None)|].
  eapply rtc_l; [by apply (run_returns _ _ _ 0%nat _ _ _ (Some (ExternalError "closed")))|].
  simpl. apply rtc_refl.
Qed.

Lemma run_to_drained : rtc step (boot manager [CallStart; CallShutdown]) drained.
Proof.
  eapply rtc_trans; [apply run_to_serving|]. unfold serving, drained.
  eapply rtc_l; [by eapply (run_prints _ _ _ 0%nat)|]. simpl.
  eapply rtc_l; [by apply (run_done _ _ _ 0%nat)|]. simpl.
  apply rtc_refl.
Qed.

Lemma wait_group_counts_goroutines_witness :
  shutdownWG (mgr serving) = 1 ∧ 0 ≤ shutdownWG (mgr serving).
Proof.
  exact (wait_group_counts_goroutines string unit new_server tt manager None
           [CallStart; CallShutdown] serving eq_refl run_to_serving).
Defined.

Lemma Shutdown_waits_for_goroutines_witness :
  Forall (λ g, g = Ended) (goroutines stopped).
Proof.
  apply (Shutdown_waits_for_goroutines string unit new_server tt manager None
           [CallStart; CallShutdown] drained stopped eq_refl run_to_drained).
  - unfold drained, stopped. by apply shutdown_return.
  - simpl. discriminate.
Defined.

Lemma calls_can_always_return_witness :
  ∃ s', rtc step serving s' ∧ at_ s' = Idle ∧ pending s' = []
        ∧ Forall (λ g, g = Ended) (goroutines s').
Proof.
  exact (calls_can_always_return string unit new_server tt manager None
           [CallStart; CallShutdown] serving eq_refl run_to_serving).
Defined.

Lemma manager_without_server_is_inert_witness :
  ∃ m, NewServerManager (λ _ : unit, (@None string, @None error)) tt = (Some m, None)
       ∧ ∀ program s, rtc step (boot m program) s →
           goroutines s = [] ∧ ∀ err, err ∈ shutdowns s → err = None.
Proof.
  apply (proj1 (manager_without_server_is_inert string unit
                  (λ _ : unit, (@None string, @None error)) tt)).
  reflexivity.
Defined.

End ApiExtras.
